(** * ThreadingLib: a shallow embedding of the job scheduling core

    The development follows the C++ sources of the library:
    - [AbstractJob]            src/abstractjob.h, src/abstractjob.cpp
    - [Thread]                 src/thread.h, src/thread.cpp
    - [JobManager]             src/jobmanager.h, src/jobmanager.cpp
    - [AbstractSessionManager] src/abstractsessionmanager.h, .cpp

    Conventions.
    - A C++ [int] is a [Z].  The counters of the library move by one per
      job and are bounded by the number of jobs.  The products and sums of
      the progress computations are reduced to 32 bits ([int_mul],
      [int_add]); a division by zero is undefined and makes the embedded
      operation fail ([int_div]).
    - A [QSharedPointer<AbstractJob>] is an index into a store of job
      objects (the heap).  Two shared pointers to the same job are the same
      index, so a job seen through the job table and through a dependency
      list is one object.  The store only grows: releasing an object is
      not observable.
    - A [QVector] / [QQueue] is a list; [operator[]] out of range and
      [dequeue] on an empty queue are undefined in Qt and make the
      embedded operation fail ([None]).
    - Virtual member functions are fields of the object (a method table).
    - Every operation of the manager runs under the manager's mutex or in
      the manager's thread; the embedding takes each of them as one atomic
      step on the state, and a run of the system is an interleaving of
      such steps with the execution of job bodies. *)

From stdpp Require Import base numbers list strings.

#[local] Open Scope Z_scope.

(** A shared pointer to a job: the position of the object in the heap. *)
Abbreviation JobPtr := nat.

(** The thread a [QObject] lives in: the thread that created it, or one of
    the worker threads of a manager. *)
Inductive ThreadRef : Type :=
| CreatorThread
| WorkerThread (tid : nat).

(** [QVector::count()] as an [int]. *)
Definition count {A : Type} (v : list A) : Z := Z.of_nat (length v).

(** [QVector::operator[]] / [QVector::at] with an [int] index. *)
Definition at_ {A : Type} (v : list A) (i : Z) : option A :=
  if bool_decide (0 <= i) then v !! Z.to_nat i else None.

(** [qMin] and [qMax] on [int]. *)
Definition qMin (a b : Z) : Z := if bool_decide (a < b) then a else b.
Definition qMax (a b : Z) : Z := if bool_decide (a < b) then b else a.

(** Arithmetic on [int], 32 bits in two's complement: a product or a sum
    that leaves the range wraps around; [/] truncates towards zero and is
    undefined for a zero divisor and for [INT_MIN / -1]. *)
Definition INT_MIN : Z := -2147483648.
Definition INT_MAX : Z := 2147483647.

Definition wrap (z : Z) : Z :=
  (z + 2147483648) mod 4294967296 - 2147483648.

Definition int_mul (a b : Z) : Z := wrap (a * b).
Definition int_add (a b : Z) : Z := wrap (a + b).

Definition int_div (a b : Z) : option Z :=
  if bool_decide (b = 0) then None
  else if bool_decide (a = INT_MIN) && bool_decide (b = -1) then None
  else Some (Z.quot a b).

(** ** AbstractJob *)

Module AbstractJob.

(** The three signals of a job. *)
Inductive Signal : Type :=
| signalFinished
| signalStopped
| signalError.

(** The data members of [AbstractJob]; [thread] is the thread affinity of
    the underlying [QObject]. *)
Record Data : Type := mkData {
  m_qsName : string;
  m_bStop : bool;
  m_bFinished : bool;
  m_vspDependency : list JobPtr;
  m_iError : Z;
  m_pThread : ThreadRef;
  m_bSpawned : bool;
  thread : ThreadRef
}.

Definition set_bStop (b : bool) (d : Data) : Data :=
  mkData (m_qsName d) b (m_bFinished d) (m_vspDependency d) (m_iError d)
         (m_pThread d) (m_bSpawned d) (thread d).

Definition set_bFinished (b : bool) (d : Data) : Data :=
  mkData (m_qsName d) (m_bStop d) b (m_vspDependency d) (m_iError d)
         (m_pThread d) (m_bSpawned d) (thread d).

Definition set_vspDependency (l : list JobPtr) (d : Data) : Data :=
  mkData (m_qsName d) (m_bStop d) (m_bFinished d) l (m_iError d)
         (m_pThread d) (m_bSpawned d) (thread d).

Definition set_iError (e : Z) (d : Data) : Data :=
  mkData (m_qsName d) (m_bStop d) (m_bFinished d) (m_vspDependency d) e
         (m_pThread d) (m_bSpawned d) (thread d).

Definition set_bSpawned (b : bool) (d : Data) : Data :=
  mkData (m_qsName d) (m_bStop d) (m_bFinished d) (m_vspDependency d)
         (m_iError d) (m_pThread d) b (thread d).

(** [QObject::moveToThread]. *)
Definition moveToThread (t : ThreadRef) (d : Data) : Data :=
  mkData (m_qsName d) (m_bStop d) (m_bFinished d) (m_vspDependency d)
         (m_iError d) (m_pThread d) (m_bSpawned d) t.

(** [AbstractJob::AbstractJob(QString qsName)]. *)
Definition init (qsName : string) : Data :=
  mkData qsName false false [] 0 CreatorThread false CreatorThread.

(** The inline observers of abstractjob.h. *)
Definition isStopped (d : Data) : bool := m_bStop d.
Definition isError (d : Data) : bool := negb (bool_decide (m_iError d = 0)).
Definition errorCode (d : Data) : Z := m_iError d.
Definition isSpawned (d : Data) : bool := m_bSpawned d.
Definition isFinished (d : Data) : bool := m_bFinished d.
Definition dependencyCount (d : Data) : Z := count (m_vspDependency d).
Definition setSpawned (d : Data) : Data := set_bSpawned true d.

(** The loop of [AbstractJob::canStart]:
    [while (count > 0 && first()->isFinished()) removeFirst();]
    [finished p] is [p->isFinished()] read through the shared pointer. *)
Fixpoint canStart_loop (finished : JobPtr -> bool) (deps : list JobPtr)
  : list JobPtr :=
  match deps with
  | [] => []
  | first :: rest =>
      if finished first then canStart_loop finished rest else deps
  end.

(** [AbstractJob::canStart]; the dependency vector is [mutable], so the
    const member function returns the job with the pruned vector. *)
Definition canStart (finished : JobPtr -> bool) (d : Data) : bool * Data :=
  let deps := canStart_loop finished (m_vspDependency d) in
  (bool_decide (count deps = 0), set_vspDependency deps d).

(** [AbstractJob::addDependency]; [None] is the null shared pointer. *)
Definition addDependency (spJob : option JobPtr) (d : Data) : Data :=
  match spJob with
  | Some p => set_vspDependency (m_vspDependency d ++ [p]) d
  | None => d
  end.

(** [AbstractJob::cleanup]. *)
Definition cleanup (d : Data) : Data :=
  if bool_decide (m_iError d = 0) && negb (m_bStop d)
  then set_bFinished true d
  else d.

(** [AbstractJob::stop]. *)
Definition stop (d : Data) : Data := set_bStop true d.

(** [AbstractJob::release]. *)
Definition release (d : Data) : Data := moveToThread (m_pThread d) d.

(** [AbstractJob::reportError]. *)
Definition reportError (iErr : Z) (d : Data) : Data := set_iError iErr d.

(** A job object: the data of the base class and the virtual member
    functions a derived class supplies.
    - [process] is the pure virtual body; it works on the members of the
      job (it may call [reportError], read and write the protected flags).
      A [stop()] that reaches the job while the body runs shows as a body
      that returns with [m_bStop] set.
    - [v_canStart] and [v_cleanup] are [canStart] and [cleanup] above
      unless the derived class overrides them.
    - [spawned] lists the jobs that successive calls of
      [nextSpawnedJob()] create; after the last one the call returns 0.
      The base class has the empty list. *)
#[warnings="-register-all"] Inductive t : Type := mk {
  data : Data;
  process : Data -> Data;
  v_canStart : (JobPtr -> bool) -> Data -> bool * Data;
  v_cleanup : Data -> Data;
  spawned : list t
}.

Definition with_data (d : Data) (j : t) : t :=
  mk d (process j) (v_canStart j) (v_cleanup j) (spawned j).

Definition with_spawned (l : list t) (j : t) : t :=
  mk (data j) (process j) (v_canStart j) (v_cleanup j) l.

(** A job of a class that overrides [process] only. *)
Definition plain (qsName : string) (body : Data -> Data) : t :=
  mk (init qsName) body canStart cleanup [].

(** [nextSpawnedJob()]: the next job to spawn, or 0. *)
Definition nextSpawnedJob (j : t) : option t * t :=
  match spawned j with
  | [] => (None, j)
  | pJob :: rest => (Some pJob, with_spawned rest j)
  end.

(** [AbstractJob::exec]: returns the job after the run and the signals it
    emitted, in order. *)
Definition exec (j : t) : t * list Signal :=
  let d0 := set_iError 0 (set_bStop false (data j)) in
  let d1 := process j d0 in
  let d2 := release d1 in
  (with_data d2 j,
   if negb (bool_decide (m_iError d2 = 0)) then [signalError]
   else if m_bStop d2 then [signalStopped]
   else [signalFinished]).

(** The default [progress()] of abstractjob.h. *)
Definition progress (d : Data) : Z :=
  if negb (m_bFinished d) then 0 else 100.

End AbstractJob.

(** ** Thread *)

Module Thread.

(** The members of [Thread]; [running] is the state of the underlying
    [QThread] ([QThread::isRunning]).  [m_spJob] is [None] for the null
    shared pointer. *)
Record t : Type := mk {
  m_iJobIndex : Z;
  m_spJob : option JobPtr;
  running : bool
}.

(** [Thread::Thread()]. *)
Definition init : t := mk (-1) None false.

Definition jobIndex (thr : t) : Z := m_iJobIndex thr.
Definition isRunning (thr : t) : bool := running thr.

(** The effect of [Thread::start(iJobIndex, spJob)] on the thread object:
    the members are set and, for a non-null job, [QThread::start()] is
    called. *)
Definition start (iJobIndex : Z) (spJob : option JobPtr) (thr : t) : t :=
  mk iJobIndex spJob
     (match spJob with Some _ => true | None => running thr end).

(** The thread leaves its event loop: the job's signal is connected to
    [quit()]. *)
Definition quit (thr : t) : t := mk (m_iJobIndex thr) (m_spJob thr) false.

End Thread.

(** ** JobManager *)

(** [enum JobManagerError] of jobmanager.h. *)
Inductive JobManagerError : Type :=
| jmeNoError
| jmeTooManyErrors
| jmeNoJobReady
| jmeCouldNotStart
| jmeImplementationError
| jmeUserDefined.

#[global] Instance JobManagerError_eq_dec : EqDecision JobManagerError.
Proof. solve_decision. Defined.

(** The members of [QTimer] the manager uses. *)
Record QTimer : Type := mkTimer {
  interval : Z;
  isActive : bool
}.

Module JobManager.

(** [enum Status]. *)
Inductive Status : Type :=
| sRunning
| sFinished
| sStopped
| sError.

#[global] Instance Status_eq_dec : EqDecision Status.
Proof. solve_decision. Defined.

(** The signals of [JobManager]. *)
Inductive Signal : Type :=
| signalFinished
| signalJobFinished (spJob : JobPtr)
| signalError (eJME : JobManagerError)
| signalStopped
| signalProgress (iPer : Z).

#[global] Instance Signal_eq_dec : EqDecision Signal.
Proof. solve_decision. Defined.

(** What an operation of the manager does to its environment, in order:
    the signals it emits, the virtual member functions it calls on jobs
    and the threads it starts. *)
Inductive Event : Type :=
| Emit (s : Signal)
| CallCanStart (p : JobPtr) (r : bool)
| CallNextSpawnedJob (p : JobPtr) (r : option JobPtr)
| CallCleanup (p : JobPtr)
| CallStop (p : JobPtr)
| ThreadStart (tid : nat) (iJobIndex : Z) (p : JobPtr).

#[global] Instance Event_eq_dec : EqDecision Event.
Proof. solve_decision. Defined.

(** The data members of [JobManager].  The elements of [m_vThreads] are
    the thread objects; a shared pointer to a thread, as [m_quIdle] holds
    them, is the position of the thread in [m_vThreads]. *)
Record Manager : Type := mkManager {
  m_vThreads : list Thread.t;
  m_quIdle : list nat;
  m_vspJobs : list JobPtr;
  m_quWaiting : list Z;
  m_timer : QTimer;
  m_iStarted : Z;
  m_iRunning : Z;
  m_iFinished : Z;
  m_iAllowedErrors : Z;
  m_iErrors : Z;
  m_eStatus : Status;
  m_eError : JobManagerError;
  m_bStop : bool;
  m_bReportJobFinish : bool
}.

Definition set_vThreads (x : list Thread.t) (m : Manager) : Manager :=
  mkManager x (m_quIdle m) (m_vspJobs m) (m_quWaiting m) (m_timer m)
    (m_iStarted m) (m_iRunning m) (m_iFinished m) (m_iAllowedErrors m)
    (m_iErrors m) (m_eStatus m) (m_eError m) (m_bStop m)
    (m_bReportJobFinish m).

Definition set_quIdle (x : list nat) (m : Manager) : Manager :=
  mkManager (m_vThreads m) x (m_vspJobs m) (m_quWaiting m) (m_timer m)
    (m_iStarted m) (m_iRunning m) (m_iFinished m) (m_iAllowedErrors m)
    (m_iErrors m) (m_eStatus m) (m_eError m) (m_bStop m)
    (m_bReportJobFinish m).

Definition set_vspJobs (x : list JobPtr) (m : Manager) : Manager :=
  mkManager (m_vThreads m) (m_quIdle m) x (m_quWaiting m) (m_timer m)
    (m_iStarted m) (m_iRunning m) (m_iFinished m) (m_iAllowedErrors m)
    (m_iErrors m) (m_eStatus m) (m_eError m) (m_bStop m)
    (m_bReportJobFinish m).

Definition set_quWaiting (x : list Z) (m : Manager) : Manager :=
  mkManager (m_vThreads m) (m_quIdle m) (m_vspJobs m) x (m_timer m)
    (m_iStarted m) (m_iRunning m) (m_iFinished m) (m_iAllowedErrors m)
    (m_iErrors m) (m_eStatus m) (m_eError m) (m_bStop m)
    (m_bReportJobFinish m).

Definition set_timer (x : QTimer) (m : Manager) : Manager :=
  mkManager (m_vThreads m) (m_quIdle m) (m_vspJobs m) (m_quWaiting m) x
    (m_iStarted m) (m_iRunning m) (m_iFinished m) (m_iAllowedErrors m)
    (m_iErrors m) (m_eStatus m) (m_eError m) (m_bStop m)
    (m_bReportJobFinish m).

Definition set_iStarted (x : Z) (m : Manager) : Manager :=
  mkManager (m_vThreads m) (m_quIdle m) (m_vspJobs m) (m_quWaiting m)
    (m_timer m) x (m_iRunning m) (m_iFinished m) (m_iAllowedErrors m)
    (m_iErrors m) (m_eStatus m) (m_eError m) (m_bStop m)
    (m_bReportJobFinish m).

Definition set_iRunning (x : Z) (m : Manager) : Manager :=
  mkManager (m_vThreads m) (m_quIdle m) (m_vspJobs m) (m_quWaiting m)
    (m_timer m) (m_iStarted m) x (m_iFinished m) (m_iAllowedErrors m)
    (m_iErrors m) (m_eStatus m) (m_eError m) (m_bStop m)
    (m_bReportJobFinish m).

Definition set_iFinished (x : Z) (m : Manager) : Manager :=
  mkManager (m_vThreads m) (m_quIdle m) (m_vspJobs m) (m_quWaiting m)
    (m_timer m) (m_iStarted m) (m_iRunning m) x (m_iAllowedErrors m)
    (m_iErrors m) (m_eStatus m) (m_eError m) (m_bStop m)
    (m_bReportJobFinish m).

Definition set_iAllowedErrors (x : Z) (m : Manager) : Manager :=
  mkManager (m_vThreads m) (m_quIdle m) (m_vspJobs m) (m_quWaiting m)
    (m_timer m) (m_iStarted m) (m_iRunning m) (m_iFinished m) x
    (m_iErrors m) (m_eStatus m) (m_eError m) (m_bStop m)
    (m_bReportJobFinish m).

Definition set_iErrors (x : Z) (m : Manager) : Manager :=
  mkManager (m_vThreads m) (m_quIdle m) (m_vspJobs m) (m_quWaiting m)
    (m_timer m) (m_iStarted m) (m_iRunning m) (m_iFinished m)
    (m_iAllowedErrors m) x (m_eStatus m) (m_eError m) (m_bStop m)
    (m_bReportJobFinish m).

Definition set_eStatus (x : Status) (m : Manager) : Manager :=
  mkManager (m_vThreads m) (m_quIdle m) (m_vspJobs m) (m_quWaiting m)
    (m_timer m) (m_iStarted m) (m_iRunning m) (m_iFinished m)
    (m_iAllowedErrors m) (m_iErrors m) x (m_eError m) (m_bStop m)
    (m_bReportJobFinish m).

Definition set_eError (x : JobManagerError) (m : Manager) : Manager :=
  mkManager (m_vThreads m) (m_quIdle m) (m_vspJobs m) (m_quWaiting m)
    (m_timer m) (m_iStarted m) (m_iRunning m) (m_iFinished m)
    (m_iAllowedErrors m) (m_iErrors m) (m_eStatus m) x (m_bStop m)
    (m_bReportJobFinish m).

Definition set_bStop (x : bool) (m : Manager) : Manager :=
  mkManager (m_vThreads m) (m_quIdle m) (m_vspJobs m) (m_quWaiting m)
    (m_timer m) (m_iStarted m) (m_iRunning m) (m_iFinished m)
    (m_iAllowedErrors m) (m_iErrors m) (m_eStatus m) (m_eError m) x
    (m_bReportJobFinish m).

Definition set_bReportJobFinish (x : bool) (m : Manager) : Manager :=
  mkManager (m_vThreads m) (m_quIdle m) (m_vspJobs m) (m_quWaiting m)
    (m_timer m) (m_iStarted m) (m_iRunning m) (m_iFinished m)
    (m_iAllowedErrors m) (m_iErrors m) (m_eStatus m) (m_eError m)
    (m_bStop m) x.

(** The state an operation of the manager works on: the job objects, the
    manager object, and the record of what the manager did so far. *)
Record World : Type := mkWorld {
  heap : list AbstractJob.t;
  jm : Manager;
  log : list Event
}.

(** Operations are state transformers that may fail; a failure stands for
    undefined behaviour of the C++ code (an index out of range, an empty
    queue, a failed [assert]). *)
Definition M (A : Type) : Type := World -> option (A * World).

#[global] Instance M_ret : MRet M := fun A a w => Some (a, w).
#[global] Instance M_bind : MBind M := fun A B k c w =>
  match c w with
  | Some (a, w') => k a w'
  | None => None
  end.

Definition fail {A : Type} : M A := fun _ => None.
Definition gets {A : Type} (f : Manager -> A) : M A :=
  fun w => Some (f (jm w), w).
Definition modify (f : Manager -> Manager) : M unit :=
  fun w => Some (tt, mkWorld (heap w) (f (jm w)) (log w)).
Definition record (e : Event) : M unit :=
  fun w => Some (tt, mkWorld (heap w) (jm w) (log w ++ [e])).
Definition emit (s : Signal) : M unit := record (Emit s).
Definition lift {A : Type} (o : option A) : M A :=
  fun w => match o with Some a => Some (a, w) | None => None end.

Definition getHeap : M (list AbstractJob.t) :=
  fun w => Some (heap w, w).

(** Dereference a shared pointer to a job. *)
Definition deref (p : JobPtr) : M AbstractJob.t :=
  fun w => match heap w !! p with Some j => Some (j, w) | None => None end.
(** Write through a shared pointer to a job. *)
Definition store (p : JobPtr) (j : AbstractJob.t) : M unit :=
  fun w => Some (tt, mkWorld (<[p := j]> (heap w)) (jm w) (log w)).
(** [QSharedPointer<AbstractJob> spJob(pJob)] for a job made by [new]. *)
Definition alloc (j : AbstractJob.t) : M JobPtr :=
  fun w => Some (length (heap w), mkWorld (heap w ++ [j]) (jm w) (log w)).

(** [for (int i = 0; i < n; ++i) body;] *)
Fixpoint repeatM (n : nat) (body : M unit) : M unit :=
  match n with
  | O => mret tt
  | S n' => body ;; repeatM n' body
  end.

(** [for (x : l) body(x);] *)
Fixpoint forM (A : Type) (l : list A) (body : A -> M unit) : M unit :=
  match l with
  | [] => mret tt
  | x :: l' => body x ;; forM A l' body
  end.
Arguments forM {A} l body.

(** [p->isFinished()] through a shared pointer, in a given heap. *)
Definition finished_in (h : list AbstractJob.t) (p : JobPtr) : bool :=
  match h !! p with
  | Some j => AbstractJob.isFinished (AbstractJob.data j)
  | None => false
  end.

(** [JobManager::allocateThreads]. *)
Definition allocateThreads (iT : Z) (m : Manager) : Manager :=
  let n := Z.to_nat iT in
  set_quIdle (seq 0 n) (set_vThreads (replicate n Thread.init) m).

(** [JobManager::JobManager(int iThreads)].  [ideal] is
    [QThread::idealThreadCount()]; the constructor does not initialise
    [m_iErrors], [garbage] is the value the member happens to have. *)
Definition init (ideal garbage iThreads : Z) : Manager :=
  let iThreads := if bool_decide (iThreads <= 0) then ideal else iThreads in
  allocateThreads iThreads
    (mkManager [] [] [] [] (mkTimer 0 false) 0 0 0 0 garbage
               sFinished jmeNoError false false).

(** The inline members of jobmanager.h. *)
Definition setReportJobFinish (b : bool) : M unit :=
  modify (set_bReportJobFinish b).
Definition isReportJobFinish (m : Manager) : bool := m_bReportJobFinish m.
Definition job (m : Manager) (i : Z) : option JobPtr := at_ (m_vspJobs m) i.
Definition allowedErrors (m : Manager) : Z := m_iAllowedErrors m.
Definition threadCount (m : Manager) : Z := count (m_vThreads m).
Definition isFinished (m : Manager) : bool :=
  bool_decide (m_eStatus m = sFinished).
Definition jobCount (m : Manager) : Z := count (m_vspJobs m).
Definition finishedCount (m : Manager) : Z := m_iFinished m.
Definition isRunning (m : Manager) : bool :=
  bool_decide (m_eStatus m = sRunning).
Definition isStopped (m : Manager) : bool := m_bStop m.

(** [JobManager::appendJobUnsafe]. *)
Definition appendJobUnsafe (spJob : JobPtr) : M unit :=
  modify (fun m => set_quWaiting (m_quWaiting m ++ [count (m_vspJobs m)]) m) ;;
  modify (fun m => set_vspJobs (m_vspJobs m ++ [spJob]) m).

(** [JobManager::appendJob]; the argument is the object behind [pJob]. *)
Definition appendJob (pJob : AbstractJob.t) : M unit :=
  spJob ← alloc pJob;
  appendJobUnsafe spJob.

(** [JobManager::clear]. *)
Definition clear : M unit :=
  modify (set_vspJobs []) ;;
  modify (set_quWaiting []) ;;
  modify (set_iStarted 0) ;;
  modify (set_iRunning 0) ;;
  modify (set_bStop false) ;;
  modify (set_eError jmeNoError).

(** [JobManager::setAllowedErrors]. *)
Definition setAllowedErrors (iN : Z) : M unit :=
  modify (set_iAllowedErrors iN).

(** [JobManager::setProgressReportTimeout]. *)
Definition setProgressReportTimeout (iMS : Z) : M unit :=
  modify (fun m => set_timer (mkTimer iMS (isActive (m_timer m))) m).

(** [JobManager::setThreads]. *)
Definition setThreads (iT : Z) : M unit :=
  st ← gets m_eStatus;
  if bool_decide (st = sRunning) then mret tt
  else modify (allocateThreads iT).

(** [JobManager::threadsRunningCount]. *)
Definition threadsRunningCount (m : Manager) : Z :=
  count (filter (fun thr => Thread.isRunning thr = true) (m_vThreads m)).

(** [m_vspJobs[i]]. *)
Definition jobAt (i : Z) : M JobPtr :=
  v ← gets m_vspJobs;
  lift (at_ v i).

(** [QQueue::dequeue] on [m_quIdle] and on [m_quWaiting]. *)
Definition dequeueIdle : M nat :=
  q ← gets m_quIdle;
  match q with
  | [] => fail
  | x :: q' => modify (set_quIdle q') ;; mret x
  end.

Definition dequeueWaiting : M Z :=
  q ← gets m_quWaiting;
  match q with
  | [] => fail
  | x :: q' => modify (set_quWaiting q') ;; mret x
  end.

(** [QQueue::front] on [m_quWaiting]. *)
Definition frontWaiting : M Z :=
  q ← gets m_quWaiting;
  lift (head q).

(** [QQueue::enqueue]. *)
Definition enqueueIdle (spThr : nat) : M unit :=
  modify (fun m => set_quIdle (m_quIdle m ++ [spThr]) m).
Definition enqueueWaiting (i : Z) : M unit :=
  modify (fun m => set_quWaiting (m_quWaiting m ++ [i]) m).

(** [spJob->canStart()], a virtual call through a shared pointer. *)
Definition callCanStart (p : JobPtr) : M bool :=
  j ← deref p;
  h ← getHeap;
  let '(b, d) := AbstractJob.v_canStart j (finished_in h)
                   (AbstractJob.data j) in
  store p (AbstractJob.with_data d j) ;;
  record (CallCanStart p b) ;;
  mret b.

(** [spJob->cleanup()], a virtual call. *)
Definition callCleanup (p : JobPtr) : M unit :=
  j ← deref p;
  store p (AbstractJob.with_data
             (AbstractJob.v_cleanup j (AbstractJob.data j)) j) ;;
  record (CallCleanup p).

(** [spJob->stop()]. *)
Definition callStop (p : JobPtr) : M unit :=
  j ← deref p;
  store p (AbstractJob.with_data (AbstractJob.stop (AbstractJob.data j)) j) ;;
  record (CallStop p).

(** [spJob->isError()]. *)
Definition callIsError (p : JobPtr) : M bool :=
  j ← deref p;
  mret (AbstractJob.isError (AbstractJob.data j)).

(** [spThr->start(iCurrent, m_vspJobs[iCurrent])] of thread.cpp: the job
    moves to the worker thread and the thread is started. *)
Definition threadStart (spThr : nat) (iJobIndex : Z) (spJob : JobPtr)
  : M unit :=
  j ← deref spJob;
  store spJob (AbstractJob.with_data
                 (AbstractJob.moveToThread (WorkerThread spThr)
                    (AbstractJob.data j)) j) ;;
  modify (fun m => set_vThreads
            (alter (Thread.start iJobIndex (Some spJob)) spThr
                   (m_vThreads m)) m) ;;
  record (ThreadStart spThr iJobIndex spJob).

(** The loop of [JobManager::startNext] over the waiting queue:
    [for (int i = 0; i < m_quWaiting.count(); ++i)].  An iteration either
    starts a job and returns from [startNext], or moves the front of the
    queue to its back, which keeps [m_quWaiting.count()]; [n] is the
    number of iterations left.  The result tells whether the function
    returned from inside the loop. *)
Fixpoint startNext_loop (n : nat) (spThr : nat) : M bool :=
  match n with
  | O => mret false
  | S n' =>
      front ← frontWaiting;
      pFront ← jobAt front;
      b ← callCanStart pFront;
      if b : bool then
        iCurrent ← dequeueWaiting;
        spJob ← jobAt iCurrent;
        threadStart spThr iCurrent spJob ;;
        modify (fun m => set_iStarted (m_iStarted m + 1) m) ;;
        modify (fun m => set_iRunning (m_iRunning m + 1) m) ;;
        mret true
      else
        i ← dequeueWaiting;
        enqueueWaiting i ;;
        startNext_loop n' spThr
  end.

(** [JobManager::startNext]. *)
Definition startNext : M unit :=
  spThr ← dequeueIdle;
  started ← gets m_iStarted;
  jobs ← gets m_vspJobs;
  if bool_decide (started < count jobs) then
    waiting ← gets m_quWaiting;
    returned ← startNext_loop (length waiting) spThr;
    if returned : bool then mret tt
    else
      running ← gets m_iRunning;
      (if bool_decide (running = 0)
       then modify (set_eError jmeNoJobReady)
       else mret tt) ;;
      enqueueIdle spThr
  else enqueueIdle spThr.

(** [JobManager::handleError]. *)
Definition handleError : M bool :=
  e ← gets m_eError;
  if negb (bool_decide (e = jmeNoError)) then
    running ← gets m_iRunning;
    (if bool_decide (running = 0)
     then modify (set_eStatus sError) ;; emit (signalError e)
     else mret tt) ;;
    mret true
  else mret false.

(** [JobManager::checkNext]. *)
Definition checkNext : M unit :=
  allowed ← gets m_iAllowedErrors;
  errors ← gets m_iErrors;
  (if bool_decide (0 <= allowed) && bool_decide (allowed < errors)
   then modify (set_eError jmeTooManyErrors)
   else mret tt) ;;
  err ← handleError;
  if err : bool then mret tt
  else
    bStop ← gets m_bStop;
    if bStop : bool then
      running ← gets m_iRunning;
      if bool_decide (running = 0)
      then modify (set_eStatus sStopped) ;; emit signalStopped
      else mret tt
    else
      finished ← gets m_iFinished;
      jobs ← gets m_vspJobs;
      if bool_decide (finished < count jobs) then
        startNext ;;
        _ ← handleError;
        mret tt
      else
        timer ← gets m_timer;
        (if bool_decide (0 < interval timer)
         then emit (signalProgress 100) ;;
              modify (set_timer (mkTimer (interval timer) false))
         else mret tt) ;;
        modify (set_eStatus sFinished).

(** [JobManager::addThreads]. *)
Definition addThreads (iT : Z) : M unit :=
  repeatM (Z.to_nat iT)
    (threads ← gets m_vThreads;
     modify (set_vThreads (threads ++ [Thread.init])) ;;
     enqueueIdle (length threads) ;;
     st ← gets m_eStatus;
     if bool_decide (st = sRunning) then startNext else mret tt).

(** [JobManager::start]. *)
Definition start : M bool :=
  st ← gets m_eStatus;
  if bool_decide (st = sRunning) then mret false
  else
    modify (set_eStatus sRunning) ;;
    modify (set_iErrors 0) ;;
    modify (set_iStarted 0) ;;
    modify (set_iFinished 0) ;;
    modify (set_iRunning 0) ;;
    modify (set_bStop false) ;;
    modify (set_eError jmeNoError) ;;
    jobs ← gets m_vspJobs;
    if bool_decide (count jobs = 0) then
      modify (set_eStatus sFinished) ;;
      emit signalFinished ;;
      mret true
    else
      threads ← gets m_vThreads;
      let iN := qMin (count threads) (count jobs) in
      repeatM (Z.to_nat iN) startNext ;;
      timer ← gets m_timer;
      (if bool_decide (0 < interval timer)
       then modify (set_timer (mkTimer (interval timer) true))
       else mret tt) ;;
      mret true.

(** [JobManager::stop]. *)
Definition stop : M unit :=
  modify (set_bStop true) ;;
  threads ← gets m_vThreads;
  forM threads (fun thr =>
    if bool_decide (0 <= Thread.jobIndex thr) then
      p ← jobAt (Thread.jobIndex thr);
      callStop p
    else mret tt).

(** The loop of [JobManager::handleJobFinished] that drains
    [nextSpawnedJob()] of the job behind [p]; [fuel] bounds the number of
    calls. *)
Fixpoint drainSpawned (fuel : nat) (p : JobPtr) : M unit :=
  match fuel with
  | O => fail
  | S fuel' =>
      j ← deref p;
      let '(pJob, j') := AbstractJob.nextSpawnedJob j in
      store p j' ;;
      match pJob with
      | None => record (CallNextSpawnedJob p None)
      | Some new =>
          spJob ← alloc (AbstractJob.with_data
                           (AbstractJob.setSpawned (AbstractJob.data new))
                           new);
          record (CallNextSpawnedJob p (Some spJob)) ;;
          appendJobUnsafe spJob ;;
          drainSpawned fuel' p
      end
  end.

(** [JobManager::handleJobFinished]; [sender] is the thread whose
    [finished()] signal invoked the slot. *)
Definition handleJobFinished (sender : nat) : M unit :=
  modify (fun m => set_iFinished (m_iFinished m + 1) m) ;;
  threads ← gets m_vThreads;
  spThr ← lift (threads !! sender);
  let iInd := Thread.jobIndex spThr in
  p ← jobAt iInd;
  j ← deref p;
  drainSpawned (S (length (AbstractJob.spawned j))) p ;;
  callCleanup p ;;
  enqueueIdle sender ;;
  modify (fun m => set_iRunning (m_iRunning m - 1) m) ;;
  isErr ← callIsError p;
  (if isErr : bool
   then modify (fun m => set_iErrors (m_iErrors m + 1) m)
   else mret tt) ;;
  report ← gets m_bReportJobFinish;
  (if report : bool then emit (signalJobFinished p) else mret tt) ;;
  waiting ← gets m_quWaiting;
  idle ← gets m_quIdle;
  let iN := qMax 1 (qMin (count waiting) (count idle)) in
  repeatM (Z.to_nat iN) checkNext ;;
  st ← gets m_eStatus;
  if bool_decide (st = sFinished) then emit signalFinished else mret tt.

(** The statements of [handleJobFinished] that follow the call of
    [cleanup()], for the thread [sender] and its job [p]. *)
Definition handleJobFinished_account (sender : nat) (p : JobPtr) : M unit :=
  enqueueIdle sender ;;
  modify (fun m => set_iRunning (m_iRunning m - 1) m) ;;
  isErr ← callIsError p;
  (if isErr : bool
   then modify (fun m => set_iErrors (m_iErrors m + 1) m)
   else mret tt) ;;
  report ← gets m_bReportJobFinish;
  (if report : bool then emit (signalJobFinished p) else mret tt) ;;
  waiting ← gets m_quWaiting;
  idle ← gets m_quIdle;
  let iN := qMax 1 (qMin (count waiting) (count idle)) in
  repeatM (Z.to_nat iN) checkNext ;;
  st ← gets m_eStatus;
  if bool_decide (st = sFinished) then emit signalFinished else mret tt.

(** A job returned by [nextSpawnedJob()] after [setSpawned()]. *)
Definition markSpawned (pJob : AbstractJob.t) : AbstractJob.t :=
  AbstractJob.with_data (AbstractJob.setSpawned (AbstractJob.data pJob)) pJob.

(** [JobManager::reportProgress]:
    [emit signalProgress(100*m_iFinished/m_vspJobs.count())]. *)
Definition reportProgress : M unit :=
  jobs ← gets m_vspJobs;
  finished ← gets m_iFinished;
  if bool_decide (0 < count jobs)
  then iPer ← lift (int_div (int_mul 100 finished) (count jobs));
       emit (signalProgress iPer)
  else mret tt.

(** What a started worker thread does (the connections made in
    [Thread::start]): [started()] invokes [exec()] of the job, and the
    signal [exec()] ends with makes the thread quit.  The manager's
    [handleJobFinished] runs later, as a step of its own, when the
    [finished()] signal of the thread is delivered. *)
Definition workerRun (tid : nat) : M (list AbstractJob.Signal) :=
  threads ← gets m_vThreads;
  thr ← lift (threads !! tid);
  p ← lift (Thread.m_spJob thr);
  j ← deref p;
  let '(j', sigs) := AbstractJob.exec j in
  store p j' ;;
  modify (fun m => set_vThreads (alter Thread.quit tid (m_vThreads m)) m) ;;
  mret sigs.

(** The signals in a log, in order of emission. *)
Fixpoint signals (l : list Event) : list Signal :=
  match l with
  | [] => []
  | Emit s :: l' => s :: signals l'
  | _ :: l' => signals l'
  end.

(** The terminal events of a run: completed, stopped, error. *)
Definition terminal (s : Signal) : bool :=
  match s with
  | signalFinished | signalStopped | signalError _ => true
  | signalJobFinished _ | signalProgress _ => false
  end.

Definition terminals (l : list Event) : list Signal :=
  List.filter terminal (signals l).

End JobManager.

(** ** AbstractSessionManager *)

Module AbstractSessionManager.

(** [enum Status]. *)
Inductive Status : Type :=
| sRunning
| sPaused
| sFinished
| sStopped
| sError.

#[global] Instance Status_eq_dec : EqDecision Status.
Proof. solve_decision. Defined.

(** The signals of [AbstractSessionManager]. *)
Inductive Signal : Type :=
| signalFinished
| signalSessionFinished (iInd : Z)
| signalError (iInd : Z) (eJME : JobManagerError)
| signalStopped (iInd : Z)
| signalProgress (iPer : Z).

#[global] Instance Signal_eq_dec : EqDecision Signal.
Proof. solve_decision. Defined.

(** The virtual member functions a derived class supplies:
    [sessionCount()], [initNextSession()], which fills the job manager for
    the session whose index it is given, and [allowedErrors()] for that
    session (0 in the base class). *)
Record Virtuals : Type := mkVirtuals {
  sessionCount : Z;
  initNextSession : Z -> JobManager.M unit;
  allowedErrors : Z -> Z
}.

(** The data members.  [m_jm] is the internal job manager with the jobs it
    owns; [pending] holds the delays of the single-shot timers that will
    invoke [startNextSession()]; [out] records the signals emitted. *)
Record Session : Type := mkSession {
  m_eStatus : Status;
  m_jm : JobManager.World;
  m_iSessionIndex : Z;
  m_iSessionTimeout : Z;
  m_iFinished : Z;
  pending : list Z;
  out : list Signal
}.

Definition set_eStatus (x : Status) (s : Session) : Session :=
  mkSession x (m_jm s) (m_iSessionIndex s) (m_iSessionTimeout s)
            (m_iFinished s) (pending s) (out s).

Definition set_jm (x : JobManager.World) (s : Session) : Session :=
  mkSession (m_eStatus s) x (m_iSessionIndex s) (m_iSessionTimeout s)
            (m_iFinished s) (pending s) (out s).

Definition set_iSessionIndex (x : Z) (s : Session) : Session :=
  mkSession (m_eStatus s) (m_jm s) x (m_iSessionTimeout s)
            (m_iFinished s) (pending s) (out s).

Definition set_iSessionTimeout (x : Z) (s : Session) : Session :=
  mkSession (m_eStatus s) (m_jm s) (m_iSessionIndex s) x
            (m_iFinished s) (pending s) (out s).

Definition set_iFinished (x : Z) (s : Session) : Session :=
  mkSession (m_eStatus s) (m_jm s) (m_iSessionIndex s) (m_iSessionTimeout s)
            x (pending s) (out s).

Definition set_pending (x : list Z) (s : Session) : Session :=
  mkSession (m_eStatus s) (m_jm s) (m_iSessionIndex s) (m_iSessionTimeout s)
            (m_iFinished s) x (out s).

Definition set_out (x : list Signal) (s : Session) : Session :=
  mkSession (m_eStatus s) (m_jm s) (m_iSessionIndex s) (m_iSessionTimeout s)
            (m_iFinished s) (pending s) x.

(** [AbstractSessionManager::AbstractSessionManager(int iThreads)]; the
    constructor does not initialise [m_iFinished]. *)
Definition init (ideal garbage garbage' iThreads : Z) : Session :=
  mkSession sFinished
    (JobManager.mkWorld []
       (JobManager.set_bReportJobFinish true
          (JobManager.init ideal garbage iThreads)) [])
    (-1) 0 garbage' [] [].

(** The inline members of abstractsessionmanager.h. *)
Definition isRunning (s : Session) : bool :=
  bool_decide (m_eStatus s = sRunning) || bool_decide (m_eStatus s = sPaused).
Definition isFinished (s : Session) : bool :=
  bool_decide (m_eStatus s = sFinished).
Definition currentSession (s : Session) : Z := m_iSessionIndex s.
Definition finishedJobs (s : Session) : Z := m_iFinished s.

(** Operations of the session manager: state transformers that fail where
    an operation of the internal job manager does. *)
Definition SM (A : Type) : Type := Session -> option (A * Session).

#[global] Instance SM_ret : MRet SM := fun A a s => Some (a, s).
#[global] Instance SM_bind : MBind SM := fun A B k c s =>
  match c s with
  | Some (a, s') => k a s'
  | None => None
  end.

Definition gets {A : Type} (f : Session -> A) : SM A :=
  fun s => Some (f s, s).
Definition modify (f : Session -> Session) : SM unit :=
  fun s => Some (tt, f s).
Definition emit (x : Signal) : SM unit :=
  modify (fun s => set_out (out s ++ [x]) s).
Definition lift {A : Type} (o : option A) : SM A :=
  fun s => match o with Some a => Some (a, s) | None => None end.

(** [AbstractSessionManager::setSessionTimeout]. *)
Definition setSessionTimeout (iTime : Z) : SM unit :=
  modify (set_iSessionTimeout iTime).

Section Slots.

Variable vt : Virtuals.

(** [AbstractSessionManager::handleFinished]. *)
Definition handleFinished : SM unit :=
  st ← gets m_eStatus;
  if negb (bool_decide (st = sRunning)) then
    idx ← gets m_iSessionIndex;
    emit (signalError idx jmeImplementationError) ;;
    modify (set_eStatus sError)
  else
    modify (set_eStatus sPaused) ;;
    idx ← gets m_iSessionIndex;
    emit (signalSessionFinished idx) ;;
    modify (set_iSessionIndex (idx + 1)) ;;
    if bool_decide (idx + 1 < sessionCount vt) then
      timeout ← gets m_iSessionTimeout;
      modify (fun s => set_pending (pending s ++ [timeout]) s)
    else
      modify (set_eStatus sFinished) ;;
      emit signalFinished.

(** [AbstractSessionManager::handleError]. *)
Definition handleError (eJME : JobManagerError) : SM unit :=
  modify (set_eStatus sError) ;;
  idx ← gets m_iSessionIndex;
  emit (signalError idx eJME) ;;
  modify (set_iSessionIndex (-1)).

(** [AbstractSessionManager::handleStopped]. *)
Definition handleStopped : SM unit :=
  modify (set_eStatus sStopped) ;;
  idx ← gets m_iSessionIndex;
  emit (signalStopped idx) ;;
  modify (set_iSessionIndex (-1)).

(** [AbstractSessionManager::handleProgress]:
    [int iTotalPer = (100*m_iSessionIndex + iPer)/sessionCount();]. *)
Definition handleProgress (iPer : Z) : SM unit :=
  idx ← gets m_iSessionIndex;
  iTotalPer ← lift (int_div (int_add (int_mul 100 idx) iPer)
                            (sessionCount vt));
  emit (signalProgress iTotalPer).

(** [AbstractSessionManager::handleJobFinished]. *)
Definition handleJobFinished : SM unit :=
  modify (fun s => set_iFinished (m_iFinished s + 1) s).

(** The connections made in the constructor: the slot a signal of the
    internal job manager invokes. *)
Definition slot (x : JobManager.Signal) : SM unit :=
  match x with
  | JobManager.signalFinished => handleFinished
  | JobManager.signalError eJME => handleError eJME
  | JobManager.signalStopped => handleStopped
  | JobManager.signalProgress iPer => handleProgress iPer
  | JobManager.signalJobFinished _ => handleJobFinished
  end.

Fixpoint deliver (l : list JobManager.Signal) : SM unit :=
  match l with
  | [] => mret tt
  | x :: l' => slot x ;; deliver l'
  end.

(** An operation of the internal job manager, called from the session
    manager or run by the event loop.  The slots above do not touch the
    job manager, so invoking them for the signals of the operation, in
    the order of emission, once the operation is done, gives the state
    the direct connections give. *)
Definition onManager {A : Type} (c : JobManager.M A) : SM A :=
  fun s =>
    match c (m_jm s) with
    | None => None
    | Some (a, w) =>
        let new := drop (length (JobManager.log (m_jm s))) (JobManager.log w) in
        match deliver (JobManager.signals new) (set_jm w s) with
        | Some (_, s') => Some (a, s')
        | None => None
        end
    end.

(** [AbstractSessionManager::appendJob], [addThreads]. *)
Definition appendJob (pJob : AbstractJob.t) : SM unit :=
  onManager (JobManager.appendJob pJob).
Definition addThreads (iT : Z) : SM unit :=
  onManager (JobManager.addThreads iT).

(** [AbstractSessionManager::startNextSession]. *)
Definition startNextSession : SM unit :=
  stopped ← gets (fun s => JobManager.isStopped (JobManager.jm (m_jm s)));
  if stopped : bool then handleStopped
  else
    onManager JobManager.clear ;;
    idx ← gets m_iSessionIndex;
    onManager (JobManager.setAllowedErrors (allowedErrors vt idx)) ;;
    onManager (initNextSession vt idx) ;;
    modify (set_eStatus sRunning) ;;
    started ← onManager JobManager.start;
    if started : bool then mret tt
    else
      modify (set_eStatus sError) ;;
      idx' ← gets m_iSessionIndex;
      emit (signalError idx' jmeCouldNotStart).

(** [AbstractSessionManager::start]. *)
Definition start : SM bool :=
  running ← gets isRunning;
  if running : bool then mret false
  else if bool_decide (sessionCount vt = 0) then
    modify (set_eStatus sFinished) ;;
    emit signalFinished ;;
    mret true
  else
    modify (set_iSessionIndex 0) ;;
    modify (set_iFinished 0) ;;
    modify (set_eStatus sPaused) ;;
    startNextSession ;;
    st ← gets m_eStatus;
    mret (bool_decide (st = sRunning)).

(** [AbstractSessionManager::stop]. *)
Definition stop : SM unit :=
  running ← gets (fun s => JobManager.isRunning (JobManager.jm (m_jm s)));
  if running : bool then onManager JobManager.stop
  else handleStopped.

(** The event loop delivers the oldest pending single-shot timer: the
    slot [startNextSession()] runs. *)
Definition fireTimer : SM unit :=
  p ← gets pending;
  match p with
  | [] => mret tt
  | _ :: p' => modify (set_pending p') ;; startNextSession
  end.

(** The event loop delivers the [finished()] signal of a worker thread to
    the internal job manager. *)
Definition workerFinished (tid : nat) : SM unit :=
  onManager (JobManager.handleJobFinished tid).

End Slots.

End AbstractSessionManager.

(** ** JobQueue *)

Module JobQueue.

(** A [JobQueue] is an [AbstractJob] ([base] holds the members of the base
    class) with the vector of its jobs and the index of the current one.
    The queue is the only owner of its jobs. *)
Record t : Type := mk {
  base : AbstractJob.Data;
  m_vJobs : list AbstractJob.t;
  m_iCurrent : Z
}.

Definition set_base (x : AbstractJob.Data) (q : t) : t :=
  mk x (m_vJobs q) (m_iCurrent q).
Definition set_vJobs (x : list AbstractJob.t) (q : t) : t :=
  mk (base q) x (m_iCurrent q).
Definition set_iCurrent (x : Z) (q : t) : t :=
  mk (base q) (m_vJobs q) x.

(** [JobQueue::JobQueue()]. *)
Definition init : t := mk (AbstractJob.init "") [] (-1).

(** [JobQueue::append]. *)
Definition append (pJob : AbstractJob.t) (q : t) : t :=
  set_vJobs (m_vJobs q ++ [pJob]) q.

(** [JobQueue::clear]. *)
Definition clear (q : t) : t :=
  set_vJobs [] (set_iCurrent (-1) q).

(** [JobQueue::jobCount]. *)
Definition jobCount (q : t) : Z := count (m_vJobs q).

(** [JobQueue::progress]:
    [(100*m_iCurrent + m_vJobs[m_iCurrent]->progress())/m_vJobs.count()];
    [v_progress] is the virtual [progress()] of the jobs in the queue.
    Where the quotient is computed the divisor is positive; the index is
    in range there, so the last branch is not reached. *)
Definition progress (v_progress : AbstractJob.t -> Z) (q : t) : Z :=
  if bool_decide (m_iCurrent q < 0) then 0
  else if bool_decide (count (m_vJobs q) <= m_iCurrent q) then 100
  else match at_ (m_vJobs q) (m_iCurrent q) with
       | Some j =>
           Z.quot (int_add (int_mul 100 (m_iCurrent q)) (v_progress j))
                  (count (m_vJobs q))
       | None => 0
       end.

(** The job after [process()] was called on it. *)
Definition ran (j : AbstractJob.t) : AbstractJob.t :=
  AbstractJob.with_data (AbstractJob.process j (AbstractJob.data j)) j.

(** The body of the loop of [JobQueue::process] after the stop check:
    [m_vJobs[m_iCurrent]->process()], and the error code of the job, when
    it is positive, becomes the error code of the queue. *)
Definition processCurrent (j : AbstractJob.t) (q : t) : t :=
  let j' := ran j in
  let q1 := set_vJobs (<[Z.to_nat (m_iCurrent q) := j']> (m_vJobs q)) q in
  if bool_decide (0 < AbstractJob.errorCode (AbstractJob.data j'))
  then set_base (AbstractJob.set_iError
                   (AbstractJob.errorCode (AbstractJob.data j')) (base q1)) q1
  else q1.

(** The loop of [JobQueue::process]:
    [for (...; m_iCurrent < m_vJobs.count() && m_iError == 0; ++m_iCurrent)].
    [stop()] may be called on the queue from another thread while the
    loop runs: [stopAt i] tells whether such a call arrives between the
    loop test and the stop check of the iteration with index [i].  [fuel]
    bounds the number of iterations. *)
Fixpoint process_loop (stopAt : Z -> bool) (fuel : nat) (q : t) : t :=
  if bool_decide (m_iCurrent q < count (m_vJobs q))
     && bool_decide (AbstractJob.m_iError (base q) = 0)
  then
    match fuel with
    | O => q
    | S fuel' =>
        let q0 := if stopAt (m_iCurrent q)
                  then set_base (AbstractJob.stop (base q)) q
                  else q in
        if AbstractJob.m_bStop (base q0) then q0
        else
          match at_ (m_vJobs q0) (m_iCurrent q0) with
          | None => q0
          | Some j =>
              let q1 := processCurrent j q0 in
              process_loop stopAt fuel' (set_iCurrent (m_iCurrent q1 + 1) q1)
          end
    end
  else q.

(** [JobQueue::process]. *)
Definition process (stopAt : Z -> bool) (q : t) : t :=
  process_loop stopAt (length (m_vJobs q)) (set_iCurrent 0 q).

(** [AbstractJob::exec] on a queue. *)
Definition exec (stopAt : Z -> bool) (q : t) : t * list AbstractJob.Signal :=
  let d0 := AbstractJob.set_iError 0 (AbstractJob.set_bStop false (base q)) in
  let q1 := process stopAt (set_base d0 q) in
  let q2 := set_base (AbstractJob.release (base q1)) q1 in
  (q2,
   if negb (bool_decide (AbstractJob.m_iError (base q2) = 0))
   then [AbstractJob.signalError]
   else if AbstractJob.m_bStop (base q2) then [AbstractJob.signalStopped]
   else [AbstractJob.signalFinished]).

(** The job leaves [process()] with a positive error code. *)
Definition fails (j : AbstractJob.t) : Prop :=
  0 < AbstractJob.errorCode (AbstractJob.data (ran j)).

(** The error code of the queue is 0 and its stop flag is clear. *)
Definition clean (q : t) : Prop :=
  AbstractJob.m_iError (base q) = 0 /\ AbstractJob.m_bStop (base q) = false.

End JobQueue.

(** ** Predicates of the statements *)

(** The counters of the manager agree: every job started is running or
    was handled at its end. *)
Definition counters_agree (w : JobManager.World) : Prop :=
  JobManager.m_iStarted (JobManager.jm w)
  = JobManager.m_iRunning (JobManager.jm w)
    + JobManager.m_iFinished (JobManager.jm w).

(** Every thread is idle or counted as running. *)
Definition threads_agree (w : JobManager.World) : Prop :=
  count (JobManager.m_quIdle (JobManager.jm w))
  + JobManager.m_iRunning (JobManager.jm w)
  = count (JobManager.m_vThreads (JobManager.jm w)).

(** The calls of [canStart()] with result [r] on the jobs whose indices
    are in [l], in order. *)
Definition canStart_calls (jobs : list nat) (l : list Z) (r : bool)
  : list JobManager.Event :=
  omap (fun i => (fun p => JobManager.CallCanStart p r) <$> at_ jobs i) l.

(** What a dispatch step changes by [k] and what it leaves alone: [k]
    jobs went from the waiting queue to idle threads; the job table, the
    number of jobs handled, the error count, the configuration, the number
    of threads and the number of job objects are as before. *)
Definition advanced (k : Z) (w w' : JobManager.World) : Prop :=
  let m := JobManager.jm w in
  let m' := JobManager.jm w' in
  JobManager.m_vspJobs m' = JobManager.m_vspJobs m
  /\ JobManager.m_iFinished m' = JobManager.m_iFinished m
  /\ JobManager.m_iErrors m' = JobManager.m_iErrors m
  /\ JobManager.m_iAllowedErrors m' = JobManager.m_iAllowedErrors m
  /\ JobManager.m_bStop m' = JobManager.m_bStop m
  /\ JobManager.m_bReportJobFinish m' = JobManager.m_bReportJobFinish m
  /\ length (JobManager.m_vThreads m') = length (JobManager.m_vThreads m)
  /\ length (JobManager.heap w') = length (JobManager.heap w)
  /\ JobManager.m_iStarted m' = JobManager.m_iStarted m + k
  /\ JobManager.m_iRunning m' = JobManager.m_iRunning m + k
  /\ count (JobManager.m_quWaiting m')
     = count (JobManager.m_quWaiting m) - k
  /\ count (JobManager.m_quIdle m') = count (JobManager.m_quIdle m) - k.

(** Whatever [c] does, it only adds to the log, and the signals it emits
    all satisfy [P]. *)
Definition emits_only (P : JobManager.Signal -> Prop) {A : Type}
    (c : JobManager.M A) : Prop :=
  forall w a w',
    c w = Some (a, w') ->
    exists sfx,
      JobManager.log w' = JobManager.log w ++ sfx
      /\ Forall P (JobManager.signals sfx).

(** The signals of the dispatch step: error, stopped, progress. *)
Definition dispatch_signal (s : JobManager.Signal) : Prop :=
  match s with
  | JobManager.signalError _ | JobManager.signalStopped
  | JobManager.signalProgress _ => True
  | JobManager.signalFinished | JobManager.signalJobFinished _ => False
  end.

(** No signal at all. *)
Definition no_signal (s : JobManager.Signal) : Prop := False.


(** The job table and the waiting queue of a manager are consistent with
    the heap: every entry of the waiting queue is an index of the job
    table and every entry of the job table points to a job. *)
Definition consistent (w : JobManager.World) : Prop :=
  Forall (fun i => 0 <= i < count (JobManager.m_vspJobs (JobManager.jm w)))
         (JobManager.m_quWaiting (JobManager.jm w))
  /\ Forall (fun p => (p < length (JobManager.heap w))%nat)
            (JobManager.m_vspJobs (JobManager.jm w)).


(** What a dispatch leaves alone: the members of the manager other than
    the two queues, the counters [m_iStarted] and [m_iRunning], the thread
    objects and [m_eError]; the number of jobs and threads; the signals
    emitted. *)
Definition dispatch_frame (w w' : JobManager.World) : Prop :=
  let m := JobManager.jm w in
  let m' := JobManager.jm w' in
  JobManager.m_vspJobs m' = JobManager.m_vspJobs m
  /\ JobManager.m_timer m' = JobManager.m_timer m
  /\ JobManager.m_iFinished m' = JobManager.m_iFinished m
  /\ JobManager.m_iAllowedErrors m' = JobManager.m_iAllowedErrors m
  /\ JobManager.m_iErrors m' = JobManager.m_iErrors m
  /\ JobManager.m_eStatus m' = JobManager.m_eStatus m
  /\ JobManager.m_bStop m' = JobManager.m_bStop m
  /\ JobManager.m_bReportJobFinish m' = JobManager.m_bReportJobFinish m
  /\ length (JobManager.m_vThreads m') = length (JobManager.m_vThreads m)
  /\ length (JobManager.heap w') = length (JobManager.heap w)
  /\ JobManager.signals (JobManager.log w')
     = JobManager.signals (JobManager.log w).

(** [k] jobs left the waiting queue, each for an idle thread. *)
Definition dispatched (k : Z) (w w' : JobManager.World) : Prop :=
  let m := JobManager.jm w in
  let m' := JobManager.jm w' in
  dispatch_frame w w'
  /\ JobManager.m_iStarted m' = JobManager.m_iStarted m + k
  /\ JobManager.m_iRunning m' = JobManager.m_iRunning m + k
  /\ count (JobManager.m_quWaiting m') = count (JobManager.m_quWaiting m) - k
  /\ count (JobManager.m_quIdle m') = count (JobManager.m_quIdle m) - k.





(** ** Scenarios *)

Module Scenario.

Import JobManager.

(** A job whose body succeeds, one whose body reports error 1, and one
    whose body succeeds on its first run and reports error 5 when it is
    run again. *)
Definition ok : AbstractJob.t :=
  AbstractJob.plain "ok" (fun d => d).
Definition failing : AbstractJob.t :=
  AbstractJob.plain "failing" (AbstractJob.reportError 1).
Definition flaky : AbstractJob.t :=
  AbstractJob.plain "flaky"
    (fun d => if AbstractJob.m_bFinished d
              then AbstractJob.reportError 5 d else d).

(** A job that spawns two jobs, as [TestJobSpawned] of the unit tests. *)
Definition spawning : AbstractJob.t :=
  AbstractJob.mk (AbstractJob.init "spawning") (fun d => d)
                 AbstractJob.canStart AbstractJob.cleanup [ok; ok].

(** A manager with [n] threads and no job. *)
Definition fresh (n : Z) : World := mkWorld [] (init 4 0 n) [].

(** A thread runs its job and the manager handles the end of the thread. *)
Definition complete (tid : nat) : M unit :=
  _ ← workerRun tid;
  handleJobFinished tid.

(** Two threads, four jobs; [stop()] while jobs 0 and 1 run; job 0 ends. *)
Definition stop_first_tick : M unit :=
  appendJob ok ;; appendJob ok ;; appendJob ok ;; appendJob ok ;;
  _ ← start;
  stop ;;
  complete 0%nat.

(** ... then job 1 ends. *)
Definition stop_second_tick : M unit :=
  stop_first_tick ;; complete 1%nat.

(** Two threads, three jobs, no error allowed; job 0 ends with an error
    while job 1 runs. *)
Definition over_budget : M unit :=
  appendJob failing ;; appendJob ok ;; appendJob ok ;;
  setAllowedErrors 0 ;;
  _ ← start;
  complete 0%nat.

(** ... then a thread is added. *)
Definition over_budget_addThreads : M unit :=
  over_budget ;; addThreads 1.

(** One thread, one job, run to completion. *)
Definition one_job_done : M unit :=
  appendJob ok ;;
  _ ← start;
  complete 0%nat.

(** ... then [clear()]. *)
Definition one_job_done_clear : M unit :=
  one_job_done ;; clear.

(** Two threads, two jobs; job 0 ends; [stop()] while job 1 runs. *)
Definition stop_after_finish : M unit :=
  appendJob ok ;; appendJob ok ;;
  _ ← start;
  complete 0%nat ;;
  stop.

(** A job run twice outside a manager: [exec()], [cleanup()], [exec()],
    [cleanup()]. *)
Definition run_and_cleanup (j : AbstractJob.t) : AbstractJob.t :=
  let j' := fst (AbstractJob.exec j) in
  AbstractJob.with_data (AbstractJob.cleanup (AbstractJob.data j')) j'.

Definition flaky_twice : AbstractJob.t :=
  run_and_cleanup (run_and_cleanup flaky).

(** Two threads, two jobs, both running. *)
Definition two_running : M unit :=
  appendJob ok ;; appendJob ok ;;
  _ ← start;
  mret tt.

(** One thread, a spawning job, started and run. *)
Definition spawning_run : M unit :=
  appendJob spawning ;;
  _ ← start;
  _ ← workerRun 0%nat;
  mret tt.

(** The state a computation reaches from a state. *)
Definition after {A : Type} (c : M A) (w : World) : World :=
  match c w with
  | Some (_, w') => w'
  | None => w
  end.

(** Whether a computation is defined on a state. *)
Definition defined {A : Type} (c : M A) (w : World) : bool :=
  match c w with
  | Some _ => true
  | None => false
  end.

(** Two threads; two jobs run to completion; [clear()]; one job appended;
    [start()].  Thread 1 still holds the job index 1 of the first
    batch. *)
Definition second_batch : M unit :=
  appendJob ok ;; appendJob ok ;;
  _ ← start;
  complete 0%nat ;;
  complete 1%nat ;;
  clear ;;
  appendJob ok ;;
  _ ← start;
  mret tt.


(** Three jobs appended and not started. *)
Definition three_jobs : M unit :=
  appendJob ok ;; appendJob ok ;; appendJob ok.

(** The session manager of the unit tests: three sessions; [jobs n]
    appends [n] jobs. *)
Fixpoint jobs (n : nat) : M unit :=
  match n with
  | O => mret tt
  | S n' => appendJob ok ;; jobs n'
  end.

Definition three_sessions : AbstractSessionManager.Virtuals :=
  AbstractSessionManager.mkVirtuals 3
    (fun idx => if bool_decide (idx = 0) then jobs 2
                else if bool_decide (idx = 1) then jobs 3
                else if bool_decide (idx = 2) then jobs 1
                else mret tt)
    (fun _ => 0).

(** A session manager with one thread in the middle of session 0. *)
Definition in_session_0 : AbstractSessionManager.Session :=
  match AbstractSessionManager.start three_sessions
          (AbstractSessionManager.init 4 0 0 1) with
  | Some (_, s) => s
  | None => AbstractSessionManager.init 4 0 0 1
  end.

(** Session 0 run to its end: the thread runs job 0, the manager handles
    the end and starts job 1, the thread runs job 1, the manager handles
    the end and reports completion. *)
Definition session_0_done : AbstractSessionManager.Session :=
  match (AbstractSessionManager.onManager three_sessions (workerRun 0%nat) ;;
         AbstractSessionManager.workerFinished three_sessions 0%nat ;;
         AbstractSessionManager.onManager three_sessions (workerRun 0%nat) ;;
         AbstractSessionManager.workerFinished three_sessions 0%nat)
          in_session_0 with
  | Some (_, s) => s
  | None => in_session_0
  end.

(** The session manager in the middle of session 0, after the thread
    has run job 0 and before the manager has handled its end. *)
Definition session_0_job_0_ran : AbstractSessionManager.Session :=
  match AbstractSessionManager.onManager three_sessions (workerRun 0%nat)
          in_session_0 with
  | Some (_, s) => s
  | None => in_session_0
  end.

(** [stop()] in the middle of session 0; the thread ends its job and the
    manager handles the end. *)
Definition session_stopped : AbstractSessionManager.Session :=
  match (AbstractSessionManager.stop three_sessions ;;
         AbstractSessionManager.onManager three_sessions (workerRun 0%nat) ;;
         AbstractSessionManager.workerFinished three_sessions 0%nat)
          in_session_0 with
  | Some (_, s) => s
  | None => in_session_0
  end.

(** A session manager without sessions. *)
Definition no_sessions : AbstractSessionManager.Virtuals :=
  AbstractSessionManager.mkVirtuals 0 (fun _ => mret tt) (fun _ => 0).

(** A session manager with two sessions whose [initNextSession()] appends
    one job whatever the index is, at the end of session 0. *)
Definition eager_sessions : AbstractSessionManager.Virtuals :=
  AbstractSessionManager.mkVirtuals 2 (fun _ => jobs 1) (fun _ => 0).

Definition between_sessions : AbstractSessionManager.Session :=
  match (_ ← AbstractSessionManager.start eager_sessions;
         AbstractSessionManager.onManager eager_sessions (workerRun 0%nat) ;;
         AbstractSessionManager.workerFinished eager_sessions 0%nat)
          (AbstractSessionManager.init 4 0 0 1) with
  | Some (_, s) => s
  | None => AbstractSessionManager.init 4 0 0 1
  end.

(** Queues of three jobs: all succeed; the second one fails. *)
Definition queue_ok : JobQueue.t :=
  JobQueue.append ok (JobQueue.append ok (JobQueue.append ok JobQueue.init)).
Definition queue_failing : JobQueue.t :=
  JobQueue.append ok
    (JobQueue.append failing (JobQueue.append ok JobQueue.init)).

(** No [stop()] during the run of a queue; a [stop()] that arrives before
    the check of job 1. *)
Definition never (i : Z) : bool := false.
Definition before_job_1 (i : Z) : bool := bool_decide (i = 1).

End Scenario.

(** * Properties *)

(** ** AbstractJob *)

Section AbstractJobFacts.

Import AbstractJob.

Implicit Types (finished : JobPtr -> bool) (d : Data) (j : t).

(** The loop of [canStart] splits the dependency vector into the removed
    front, all of it finished, and the rest, which is empty or starts with
    an unfinished job. *)
Lemma canStart_loop_split finished (deps : list JobPtr) :
  exists removed,
    deps = removed ++ canStart_loop finished deps
    /\ Forall (fun p => finished p = true) removed
    /\ match canStart_loop finished deps with
       | [] => True
       | p :: _ => finished p = false
       end.
Proof.
  induction deps as [|first rest IH]; simpl.
  - exists []. by repeat split.
  - destruct (finished first) eqn:Hfirst.
    + destruct IH as (removed & Heq & Hall & Hhead).
      exists (first :: removed). repeat split.
      * simpl. by rewrite <- Heq.
      * by constructor.
      * done.
    + exists []. repeat split; by try constructor.
Qed.

Lemma canStart_loop_nil_iff finished (deps : list JobPtr) :
  canStart_loop finished deps = []
  <-> Forall (fun p => finished p = true) deps.
Proof.
  induction deps as [|first rest IH]; simpl.
  - split; [by constructor | done].
  - destruct (finished first) eqn:Hfirst.
    + rewrite IH. split.
      * intros H. by constructor.
      * intros H. by inversion H.
    + split; [done |].
      intros H. inversion H; congruence.
Qed.

(** C2.  The default [canStart()] returns true if and only if every job
    of the dependency list is finished.  The call inspects the list from
    its front: the entries it finds finished are removed, the inspection
    ends at the first entry found unfinished (or at the end of the list),
    and [dependencyCount()] afterwards counts the entries that are left.
    No other member of the job changes. *)
Theorem canStart_spec finished d :
  let r := canStart finished d in
  (fst r = true <-> Forall (fun p => finished p = true) (m_vspDependency d))
  /\ (exists removed,
         m_vspDependency d = removed ++ m_vspDependency (snd r)
         /\ Forall (fun p => finished p = true) removed
         /\ match m_vspDependency (snd r) with
            | [] => True
            | p :: _ => finished p = false
            end
         /\ dependencyCount (snd r) = dependencyCount d - count removed)
  /\ snd r = set_vspDependency (m_vspDependency (snd r)) d.
Proof.
  unfold canStart; simpl. split; [|split].
  - rewrite bool_decide_eq_true, <- canStart_loop_nil_iff.
    unfold count. destruct (canStart_loop finished (m_vspDependency d)).
    + done.
    + simpl. split; [lia | done].
  - destruct (canStart_loop_split finished (m_vspDependency d))
      as (removed & Heq & Hall & Hhead).
    exists removed. repeat split; try done.
    unfold dependencyCount, count; simpl.
    rewrite Heq at 2. rewrite length_app. lia.
  - done.
Qed.

(** [cleanup()] never clears the finished flag: it is set afterwards if
    it was set before or the run ended without error and without stop. *)
Lemma cleanup_finished d :
  m_bFinished (cleanup d)
  = m_bFinished d || (bool_decide (m_iError d = 0) && negb (m_bStop d)).
Proof.
  unfold cleanup.
  destruct (bool_decide (m_iError d = 0) && negb (m_bStop d)); simpl.
  - by rewrite orb_true_r.
  - by rewrite orb_false_r.
Qed.

(** On a job that is not yet finished, [cleanup()] sets the finished flag
    exactly when the error code is 0 and the stop flag is clear. *)
Lemma cleanup_first_run d :
  m_bFinished d = false ->
  (m_bFinished (cleanup d) = true
   <-> m_iError d = 0 /\ m_bStop d = false).
Proof.
  intros Hnot. rewrite cleanup_finished, Hnot; simpl.
  rewrite andb_true_iff, bool_decide_eq_true, negb_true_iff. done.
Qed.

(** [exec()] resets the stop flag and the error code and nothing else. *)
Lemma exec_keeps_finished j :
  m_bFinished (data (fst (exec j)))
  = m_bFinished (process j (set_iError 0 (set_bStop false (data j)))).
Proof. done. Qed.

(** C7.  The finished flag of a job outlives the run that set it.
    A job that ran successfully and is executed again, this time with
    error 5, is after [cleanup()] both finished and in error; and a job
    that finished under a manager gets the stop flag when [stop()] is
    called on the manager while its thread is idle, and is then both
    finished and stopped. *)
Theorem finished_flag_is_sticky :
  (m_bFinished (data Scenario.flaky_twice) = true
   /\ m_iError (data Scenario.flaky_twice) = 5
   /\ isFinished (data Scenario.flaky_twice) = true
   /\ isError (data Scenario.flaky_twice) = true)
  /\ Scenario.defined Scenario.stop_after_finish (Scenario.fresh 2) = true
  /\ (exists j0,
         JobManager.heap
           (Scenario.after Scenario.stop_after_finish (Scenario.fresh 2))
         !! 0%nat = Some j0
         /\ m_bFinished (data j0) = true
         /\ m_bStop (data j0) = true).
Proof.
  split; [by vm_compute |]. split; [by vm_compute |].
  eexists. split; [by vm_compute | by vm_compute].
Qed.

(** C10.  [exec()] emits exactly one signal, chosen by the error code and
    the stop flag the body leaves behind: [signalError] when the error
    code is not 0, whatever the stop flag; [signalStopped] when the error
    code is 0 and the stop flag is set; [signalFinished] when the error
    code is 0 and the stop flag is clear. *)
Theorem exec_signal j :
  let body := process j (set_iError 0 (set_bStop false (data j))) in
  let r := exec j in
  m_iError (data (fst r)) = m_iError body
  /\ m_bStop (data (fst r)) = m_bStop body
  /\ length (snd r) = 1%nat
  /\ (snd r = [signalError] <-> m_iError body <> 0)
  /\ (snd r = [signalStopped] <-> m_iError body = 0 /\ m_bStop body = true)
  /\ (snd r = [signalFinished]
      <-> m_iError body = 0 /\ m_bStop body = false).
Proof.
  unfold exec, release; simpl.
  set (body := process j _).
  destruct (bool_decide (m_iError body = 0)) eqn:Herr;
    [apply bool_decide_eq_true in Herr | apply bool_decide_eq_false in Herr];
    destruct (m_bStop body) eqn:Hstop; simpl;
    repeat split; intros; try done; try congruence;
    try (destruct_and?; congruence).
Qed.

(** [exec_signal] on a job whose body reports error 3 and returns with the
    stop flag set: the only signal is [signalError]. *)
Lemma exec_signal_witness :
  snd (exec (plain "both" (fun d => stop (reportError 3 d))))
  = [signalError].
Proof.
  apply (exec_signal (plain "both" (fun d => stop (reportError 3 d)))).
  by vm_compute.
Defined.

(** A finished dependency behind an unfinished one is not inspected and
    stays in the list. *)
Example canStart_stops_at_unfinished :
  let finished := fun p => bool_decide (p = 1%nat) in
  canStart finished (addDependency (Some 1%nat)
                       (addDependency (Some 0%nat) (init "job")))
  = (false, addDependency (Some 1%nat)
              (addDependency (Some 0%nat) (init "job"))).
Proof. reflexivity. Qed.

End AbstractJobFacts.

(** ** JobManager *)

Section JobManagerFacts.

Import JobManager.

Implicit Types (w : World) (m : Manager).

(** *** The monad *)

Lemma bind_some {A B : Type} (c : M A) (k : A -> M B) w a w1 :
  c w = Some (a, w1) -> (c ≫= k) w = k a w1.
Proof. intros H. unfold mbind, M_bind. by rewrite H. Qed.

(** Run the monadic plumbing of a goal. *)
Ltac mrun :=
  repeat (progress (unfold mbind, M_bind, mret, M_ret, gets, modify, lift,
                      deref, store, record, emit, getHeap, alloc, fail;
                    simpl)).

Lemma world_eta w : mkWorld (heap w) (jm w) (log w) = w.
Proof. by destruct w. Qed.

Lemma signals_app (l1 l2 : list Event) :
  signals (l1 ++ l2) = signals l1 ++ signals l2.
Proof.
  induction l1 as [|e l1 IH]; simpl; [done |].
  destruct e; simpl; by rewrite ?IH.
Qed.

Lemma at_is_Some {A : Type} (v : list A) (i : Z) :
  0 <= i < count v -> exists x, at_ v i = Some x.
Proof.
  intros [Hlo Hhi]. unfold at_. rewrite bool_decide_eq_true_2 by done.
  apply lookup_lt_is_Some. unfold count in Hhi. lia.
Qed.

Lemma at_elem_of {A : Type} (v : list A) (i : Z) (x : A) :
  at_ v i = Some x -> x ∈ v.
Proof.
  unfold at_. case_bool_decide; [|done].
  intros Hl. by eapply list_elem_of_lookup_2.
Qed.

(** *** The dispatch step *)

(** [handleError()] answers whether an error is pending, and reports it,
    with the status [sError], when no job runs. *)
Lemma handleError_spec w :
  handleError w
  = Some (negb (bool_decide (m_eError (jm w) = jmeNoError)),
          if negb (bool_decide (m_eError (jm w) = jmeNoError))
             && bool_decide (m_iRunning (jm w) = 0)
          then mkWorld (heap w) (set_eStatus sError (jm w))
                       (log w ++ [Emit (signalError (m_eError (jm w)))])
          else w).
Proof.
  unfold handleError, mbind, M_bind, gets; simpl.
  destruct (bool_decide (m_eError (jm w) = jmeNoError)); simpl; [done |].
  by destruct (bool_decide (m_iRunning (jm w) = 0)).
Qed.

(** With the error budget exceeded, [checkNext()] starts nothing: it
    records [jmeTooManyErrors] and, when no job runs, sets the status
    [sError] and emits [signalError(jmeTooManyErrors)]. *)
Lemma checkNext_over_budget w :
  0 <= m_iAllowedErrors (jm w) < m_iErrors (jm w) ->
  checkNext w
  = Some (tt,
          if bool_decide (m_iRunning (jm w) = 0)
          then mkWorld (heap w)
                 (set_eStatus sError (set_eError jmeTooManyErrors (jm w)))
                 (log w ++ [Emit (signalError jmeTooManyErrors)])
          else mkWorld (heap w) (set_eError jmeTooManyErrors (jm w)) (log w)).
Proof.
  intros [Hlo Hhi]. unfold checkNext.
  unfold mbind at 1 2 3, M_bind, gets at 1 2; simpl.
  rewrite !bool_decide_eq_true_2 by done; simpl.
  unfold modify at 1; simpl.
  unfold mbind at 1, M_bind. rewrite handleError_spec; simpl.
  by destruct (bool_decide (m_iRunning (jm w) = 0)).
Qed.

(** With the stop flag set and no error pending, [checkNext()] starts
    nothing: when no job runs it sets the status [sStopped] and emits
    [signalStopped], otherwise it leaves the state as it is. *)
Lemma checkNext_stopped w :
  m_bStop (jm w) = true ->
  m_eError (jm w) = jmeNoError ->
  ~ (0 <= m_iAllowedErrors (jm w) < m_iErrors (jm w)) ->
  checkNext w
  = Some (tt,
          if bool_decide (m_iRunning (jm w) = 0)
          then mkWorld (heap w) (set_eStatus sStopped (jm w))
                       (log w ++ [Emit signalStopped])
          else w).
Proof.
  intros Hstop Herr Hbudget. unfold checkNext.
  unfold mbind at 1 2 3, M_bind, gets at 1 2; simpl.
  assert (bool_decide (0 <= m_iAllowedErrors (jm w))
          && bool_decide (m_iAllowedErrors (jm w) < m_iErrors (jm w))
          = false) as ->.
  { apply andb_false_iff.
    destruct (decide (0 <= m_iAllowedErrors (jm w))).
    - right. apply bool_decide_eq_false. lia.
    - left. by apply bool_decide_eq_false. }
  unfold mret at 1, M_ret.
  unfold mbind at 1, M_bind. rewrite handleError_spec, Herr; simpl.
  unfold mbind at 1, M_bind, gets at 1; simpl. rewrite Hstop.
  unfold mbind at 1, M_bind, gets at 1; simpl.
  destruct (bool_decide (m_iRunning (jm w) = 0)); [done |].
  done.
Qed.

(** Without a budget (a negative number of allowed errors), with no error
    pending and the stop flag clear, [checkNext()] goes on to
    [startNext()] as long as jobs are left, whatever the error count. *)
Lemma checkNext_unlimited w :
  m_iAllowedErrors (jm w) < 0 ->
  m_eError (jm w) = jmeNoError ->
  m_bStop (jm w) = false ->
  m_iFinished (jm w) < count (m_vspJobs (jm w)) ->
  checkNext w = (startNext ;; _ ← handleError; mret tt) w.
Proof.
  intros Hneg Herr Hstop Hleft. unfold checkNext.
  unfold mbind at 1 2 3, M_bind, gets at 1 2; simpl.
  rewrite (bool_decide_eq_false_2 (0 <= _)) by lia; simpl.
  unfold mret at 1, M_ret.
  unfold mbind at 1, M_bind. rewrite handleError_spec, Herr; simpl.
  unfold mbind at 1, M_bind, gets at 1; simpl. rewrite Hstop.
  unfold mbind at 1 2, M_bind, gets at 1 2; simpl.
  by rewrite bool_decide_eq_true_2 by done.
Qed.

(** Two dispatch steps in a row with the stop flag set and no job
    running emit [signalStopped] twice: the first one changes nothing the
    second one looks at. *)
Lemma checkNext_twice_stopped w :
  m_bStop (jm w) = true ->
  m_eError (jm w) = jmeNoError ->
  ~ (0 <= m_iAllowedErrors (jm w) < m_iErrors (jm w)) ->
  m_iRunning (jm w) = 0 ->
  (checkNext ;; checkNext) w
  = Some (tt,
          mkWorld (heap w) (set_eStatus sStopped (jm w))
                  (log w ++ [Emit signalStopped; Emit signalStopped])).
Proof.
  intros Hstop Herr Hbudget Hrun.
  erewrite bind_some by by apply checkNext_stopped.
  rewrite Hrun; simpl.
  rewrite checkNext_stopped by done. simpl. rewrite Hrun; simpl.
  by rewrite <- app_assoc.
Qed.

(** The same for a pending error. *)
Lemma checkNext_twice_over_budget w :
  0 <= m_iAllowedErrors (jm w) < m_iErrors (jm w) ->
  m_iRunning (jm w) = 0 ->
  (checkNext ;; checkNext) w
  = Some (tt,
          mkWorld (heap w)
            (set_eStatus sError (set_eError jmeTooManyErrors (jm w)))
            (log w ++ [Emit (signalError jmeTooManyErrors);
                       Emit (signalError jmeTooManyErrors)])).
Proof.
  intros Hbudget Hrun.
  erewrite bind_some by by apply checkNext_over_budget.
  rewrite Hrun; simpl.
  rewrite checkNext_over_budget by done. simpl. rewrite Hrun; simpl.
  by rewrite <- app_assoc.
Qed.

(** *** [stop()] *)



(** [stop()] reads [m_vspJobs] at the job index of every thread that
    holds one: an index behind the end of the job table is an access out
    of range. *)
Lemma stop_out_of_range w (thr : Thread.t) :
  thr ∈ m_vThreads (jm w) ->
  count (m_vspJobs (jm w)) <= Thread.jobIndex thr ->
  stop w = None.
Proof.
  intros Hin Hidx. unfold stop. unfold mbind at 1 2, M_bind, modify, gets.
  set (w1 := mkWorld (heap w) (set_bStop true (jm w)) (log w)).
  change (m_vThreads (jm w1)) with (m_vThreads (jm w)).
  assert (Hjobs : m_vspJobs (jm w1) = m_vspJobs (jm w)) by done.
  clearbody w1.
  match goal with |- forM _ ?b _ = _ => set (body := b) end.
  assert (Hkeep : forall x w2 u w',
             body x w2 = Some (u, w') -> jm w' = jm w2).
  { intros x w2 u w'. unfold body, jobAt, callStop. mrun.
    case_bool_decide; mrun; [|by intros [= <- <-]].
    destruct (at_ _ _); mrun; [|done].
    destruct (heap w2 !! _); mrun; [|done]. by intros [= <- <-]. }
  assert (Hfail : forall w2,
             m_vspJobs (jm w2) = m_vspJobs (jm w) -> body thr w2 = None).
  { intros w2 Hj. unfold body, jobAt. mrun.
    rewrite bool_decide_eq_true_2 by (unfold count in Hidx; lia). mrun.
    rewrite Hj.
    assert (at_ (m_vspJobs (jm w)) (Thread.jobIndex thr) = None) as ->;
      [|done].
    unfold at_. case_bool_decide; [|done].
    apply lookup_ge_None_2. unfold count in Hidx. lia. }
  clearbody body. revert w1 Hjobs.
  induction (m_vThreads (jm w)) as [|x l IH]; intros w1 Hjobs.
  - by apply elem_of_nil in Hin.
  - simpl. unfold mbind, M_bind.
    apply elem_of_cons in Hin as [<-|Hin].
    + by rewrite Hfail.
    + destruct (body x w1) as [[u w2]|] eqn:Hstep; [|done].
      apply IH; [done |].
      apply Hkeep in Hstep. by rewrite Hstep.
Qed.


(** *** [startNext()] *)

Lemma dispatch_frame_refl w : dispatch_frame w w.
Proof. unfold dispatch_frame. by repeat split. Qed.

Lemma dispatch_frame_trans w1 w2 w3 :
  dispatch_frame w1 w2 -> dispatch_frame w2 w3 -> dispatch_frame w1 w3.
Proof. unfold dispatch_frame. intros H12 H23. intuition congruence. Qed.

Lemma dispatched_trans k1 k2 w1 w2 w3 :
  dispatched k1 w1 w2 -> dispatched k2 w2 w3 -> dispatched (k1 + k2) w1 w3.
Proof.
  unfold dispatched. intros (Hf1 & ? & ? & ? & ?) (Hf2 & ? & ? & ? & ?).
  split; [by eapply dispatch_frame_trans |]. repeat split; lia.
Qed.

(** The loop of [startNext()] over a consistent state does not fail.  It
    either starts one job, which leaves the waiting queue, or starts none
    and keeps the length of the queue. *)
Lemma startNext_loop_spec (n : nat) (tid : nat) w :
  consistent w ->
  (n <= length (m_quWaiting (jm w)))%nat ->
  exists (b : bool) w',
    startNext_loop n tid w = Some (b, w')
    /\ consistent w'
    /\ dispatch_frame w w'
    /\ m_quIdle (jm w') = m_quIdle (jm w)
    /\ m_eError (jm w') = m_eError (jm w)
    /\ m_iStarted (jm w') = m_iStarted (jm w) + (if b then 1 else 0)
    /\ m_iRunning (jm w') = m_iRunning (jm w) + (if b then 1 else 0)
    /\ count (m_quWaiting (jm w'))
       = count (m_quWaiting (jm w)) - (if b then 1 else 0).
Proof.
  revert w. induction n as [|n IH]; intros w Hc Hn.
  - exists false, w. simpl.
    split; [done |]. split; [done |].
    split; [apply dispatch_frame_refl |]. repeat split; lia.
  - destruct Hc as [Hwait Hjobs].
    destruct (m_quWaiting (jm w)) as [|i q] eqn:Hq; [simpl in Hn; lia |].
    inversion Hwait as [|? ? Hi Hrest]; subst.
    destruct (at_is_Some _ _ Hi) as [p Hat].
    assert (Hp : (p < length (heap w))%nat).
    { rewrite Forall_forall in Hjobs. apply Hjobs. by eapply at_elem_of. }
    destruct (lookup_lt_is_Some_2 _ _ Hp) as [j Hj].
    simpl startNext_loop.
    unfold frontWaiting, jobAt, callCanStart, dequeueWaiting, enqueueWaiting,
      threadStart.
    mrun. rewrite Hq. mrun. rewrite Hat. mrun. rewrite Hj. mrun.
    destruct (AbstractJob.v_canStart j (finished_in (heap w))
                (AbstractJob.data j)) as [b d] eqn:Hcs.
    mrun. destruct b; mrun; rewrite Hq; mrun.
    + (* the front job can start *)
      rewrite Hat. mrun.
      rewrite list_lookup_insert_eq by done. mrun.
      eexists true, _. split; [reflexivity |]. simpl.
      split; [|split].
      * split; simpl; [done |].
        by rewrite !length_insert.
      * unfold dispatch_frame; simpl.
        rewrite !length_insert, length_alter, !signals_app; simpl.
        by rewrite !app_nil_r.
      * unfold count in *. simpl. repeat split; try done; lia.
    + (* the front job cannot start: it moves to the back *)
      match goal with
      | |- exists b w', startNext_loop n tid ?w1 = _ /\ _ =>
          destruct (IH w1) as (b & w' & Hrun & Hc' & Hf & Hidle & Herr
                               & Hst & Hru & Hwa)
      end.
      { split; simpl.
        - apply Forall_app. split; [done | by constructor].
        - by rewrite length_insert. }
      { simpl. rewrite length_app; simpl. simpl in Hn. lia. }
      exists b, w'. split; [done |]. split; [done |]. simpl in *.
      split; [|repeat split; try done].
      * eapply dispatch_frame_trans; [|exact Hf].
        unfold dispatch_frame; simpl.
        rewrite length_insert, signals_app; simpl.
        by rewrite app_nil_r.
      * rewrite Hwa. unfold count. rewrite length_app; simpl. lia.
Qed.

(** [startNext()] on a consistent state with an idle thread does not
    fail and starts at most one job. *)
Lemma startNext_spec w :
  consistent w ->
  m_quIdle (jm w) <> [] ->
  exists k w',
    startNext w = Some (tt, w')
    /\ consistent w'
    /\ dispatched k w w'
    /\ 0 <= k <= 1
    /\ k <= count (m_quWaiting (jm w)).
Proof.
  intros Hc Hidle.
  destruct (m_quIdle (jm w)) as [|tid q] eqn:Hq; [done |].
  unfold startNext, dequeueIdle, enqueueIdle. mrun. rewrite Hq. mrun.
  case_bool_decide as Hleft; mrun.
  - set (w1 := mkWorld (heap w) (set_quIdle q (jm w)) (log w)).
    destruct (startNext_loop_spec (length (m_quWaiting (jm w))) tid w1)
      as (b & w' & Hrun & Hc' & Hf & Hidle' & Herr & Hst & Hru & Hwa);
      [done | done |].
    rewrite Hrun. simpl in *. destruct b; mrun.
    + exists 1, w'. split; [done |]. split; [done |].
      split; [|split; [lia |]].
      * unfold dispatched. split; [exact Hf |]. rewrite Hidle', Hq.
        unfold count in *; simpl. repeat split; lia.
      * unfold count in *. lia.
    + destruct (bool_decide (m_iRunning (jm w') = 0)); mrun;
        (eexists 0, _; split; [reflexivity |];
         split; [by destruct Hc' |];
         split; [|split; [lia | unfold count; lia]];
         unfold dispatched, dispatch_frame in *; simpl;
         rewrite Hidle', Hq; unfold count in *;
         rewrite ?length_app; simpl;
         (split; [intuition congruence | repeat split; lia])).
  - eexists 0, _. split; [reflexivity |]. split; [exact Hc |].
    split; [|split; [lia | unfold count; lia]].
    unfold dispatched, dispatch_frame; simpl. rewrite Hq.
    unfold count; rewrite length_app; simpl. repeat split; lia.
Qed.

(** The loop of [start()]: [n] calls of [startNext()] with at least [n]
    idle threads start at most [n] jobs, each taken from the waiting
    queue. *)
Lemma repeat_startNext_spec (n : nat) w :
  consistent w ->
  (n <= length (m_quIdle (jm w)))%nat ->
  exists k w',
    repeatM n startNext w = Some (tt, w')
    /\ consistent w'
    /\ dispatched k w w'
    /\ 0 <= k <= Z.of_nat n
    /\ k <= count (m_quWaiting (jm w)).
Proof.
  revert w. induction n as [|n IH]; intros w Hc Hn.
  - exists 0, w. split; [done |]. split; [done |].
    split; [|split; [lia | unfold count; lia]].
    unfold dispatched. split; [apply dispatch_frame_refl |].
    repeat split; lia.
  - destruct (startNext_spec w Hc) as (k1 & w1 & Hrun1 & Hc1 & Hd1 & Hk1 & Hw1).
    { destruct (m_quIdle (jm w)); [simpl in Hn; lia | done]. }
    destruct (IH w1 Hc1) as (k2 & w2 & Hrun2 & Hc2 & Hd2 & Hk2 & Hw2).
    { destruct Hd1 as (_ & _ & _ & _ & Hidle). unfold count in Hidle. lia. }
    exists (k1 + k2), w2. split; [|split; [done |split; [|split]]].
    + simpl. by rewrite (bind_some _ _ _ _ _ Hrun1).
    + by eapply dispatched_trans.
    + lia.
    + destruct Hd1 as (_ & _ & _ & Hwait & _). lia.
Qed.




(** *** [start()] *)


(** *** [handleJobFinished()] *)

Lemma with_spawned_id (j : AbstractJob.t) :
  AbstractJob.with_spawned (AbstractJob.spawned j) j = j.
Proof. by destruct j. Qed.

(** The drain loop: [nextSpawnedJob()] is called once for every job to
    spawn and once more, each new job is marked spawned and goes to the
    end of the heap, of the job table and of the waiting queue. *)
Lemma drainSpawned_spec (p : nat) (l : list AbstractJob.t) w (j : AbstractJob.t) :
  heap w !! p = Some j ->
  AbstractJob.spawned j = l ->
  drainSpawned (S (length l)) p w
  = Some (tt,
          mkWorld
            (<[p := AbstractJob.with_spawned [] j]> (heap w)
               ++ (markSpawned <$> l))
            (set_vspJobs
               (m_vspJobs (jm w) ++ seq (length (heap w)) (length l))
               (set_quWaiting
                  (m_quWaiting (jm w)
                     ++ (Z.of_nat <$> seq (length (m_vspJobs (jm w)))
                                          (length l)))
                  (jm w)))
            (log w
               ++ ((fun q => CallNextSpawnedJob p (Some q))
                     <$> seq (length (heap w)) (length l))
               ++ [CallNextSpawnedJob p None])).
Proof.
  revert w j. induction l as [|c l IH]; intros w j Hj Hl.
  - simpl. unfold AbstractJob.nextSpawnedJob. mrun. rewrite Hj, Hl. mrun.
    f_equal. f_equal. destruct w as [h m lg]; simpl in *.
    rewrite !app_nil_r. rewrite <- Hl, with_spawned_id.
    rewrite list_insert_id by done. by destruct m.
  - assert (Hp : (p < length (heap w))%nat) by by eapply lookup_lt_Some.
    change (drainSpawned (S (length (c :: l))) p w)
      with ((j0 ← deref p;
             let '(pJob, j') := AbstractJob.nextSpawnedJob j0 in
             store p j' ;;
             match pJob with
             | None => record (CallNextSpawnedJob p None)
             | Some new =>
                 spJob ← alloc (AbstractJob.with_data
                                  (AbstractJob.setSpawned
                                     (AbstractJob.data new)) new);
                 record (CallNextSpawnedJob p (Some spJob)) ;;
                 appendJobUnsafe spJob ;;
                 drainSpawned (S (length l)) p
             end) w).
    remember (drainSpawned (S (length l)) p) as rest eqn:Hrest.
    unfold AbstractJob.nextSpawnedJob, appendJobUnsafe. mrun.
    rewrite Hj, Hl. mrun.
    erewrite IH; cycle 1.
    { simpl. rewrite lookup_app_l by by rewrite length_insert.
      by apply list_lookup_insert_eq. }
    { done. }
    f_equal. f_equal. destruct w as [h m lg]; simpl in *.
    f_equal.
    + rewrite insert_app_l by by rewrite length_insert.
      rewrite list_insert_insert_eq. rewrite <- app_assoc. done.
    + destruct m; simpl.
      rewrite !length_app, !length_insert; simpl.
      rewrite <- !app_assoc; simpl.
      unfold count. rewrite !Nat.add_1_r. done.
    + rewrite !length_app, !length_insert; simpl.
      rewrite <- !app_assoc; simpl. rewrite !Nat.add_1_r. done.
Qed.

#[local] Opaque drainSpawned.

(** C8.  [handleJobFinished()] for a thread whose job is behind [p]
    first calls [nextSpawnedJob()] on that job until it returns 0: once
    for every job to spawn and once more.  Each job returned is marked
    spawned, and its pointer goes to the end of the job table and its
    index to the end of the waiting queue, in the order of the calls.
    Only then [cleanup()] is called on the job, and the rest of the
    handler runs from the state after that call. *)
Theorem handleJobFinished_drains_before_cleanup
    (sender : nat) w (thr : Thread.t) (p : nat) (j : AbstractJob.t) :
  m_vThreads (jm w) !! sender = Some thr ->
  at_ (m_vspJobs (jm w)) (Thread.jobIndex thr) = Some p ->
  heap w !! p = Some j ->
  let l := AbstractJob.spawned j in
  let new := seq (length (heap w)) (length l) in
  exists w1 w2 j1,
    (* the state at the end of the drain loop *)
    heap w1 = <[p := j1]> (heap w) ++ (markSpawned <$> l)
    /\ j1 = AbstractJob.with_spawned [] j
    /\ Forall (fun c => AbstractJob.isSpawned (AbstractJob.data c) = true)
              (markSpawned <$> l)
    /\ m_vspJobs (jm w1) = m_vspJobs (jm w) ++ new
    /\ m_quWaiting (jm w1)
       = m_quWaiting (jm w)
           ++ (Z.of_nat <$> seq (length (m_vspJobs (jm w))) (length l))
    /\ log w1
       = log w ++ ((fun q => CallNextSpawnedJob p (Some q)) <$> new)
               ++ [CallNextSpawnedJob p None]
    (* then cleanup() *)
    /\ callCleanup p w1 = Some (tt, w2)
    /\ heap w2
       = <[p := AbstractJob.with_data
                  (AbstractJob.v_cleanup j1 (AbstractJob.data j1)) j1]>
           (heap w1)
    /\ jm w2 = jm w1
    /\ log w2 = log w1 ++ [CallCleanup p]
    (* then the rest of the handler *)
    /\ handleJobFinished sender w = handleJobFinished_account sender p w2.
Proof.
  intros Hthr Hat Hj l new.
  set (w0 := mkWorld (heap w) (set_iFinished (m_iFinished (jm w) + 1) (jm w))
                     (log w)).
  pose proof (drainSpawned_spec p l w0 j Hj eq_refl) as Hdrain.
  match type of Hdrain with _ = Some (tt, ?x) => set (w1 := x) in * end.
  set (j1 := AbstractJob.with_spawned [] j).
  assert (Hp : (p < length (heap w))%nat) by by eapply lookup_lt_Some.
  assert (Hj1 : heap w1 !! p = Some j1).
  { simpl. rewrite lookup_app_l by by rewrite length_insert.
    by apply list_lookup_insert_eq. }
  set (w2 := mkWorld
               (<[p := AbstractJob.with_data
                         (AbstractJob.v_cleanup j1 (AbstractJob.data j1))
                         j1]> (heap w1))
               (jm w1) (log w1 ++ [CallCleanup p])).
  assert (Hclean : callCleanup p w1 = Some (tt, w2)).
  { unfold callCleanup. unfold mbind at 1, M_bind, deref.
    by rewrite Hj1. }
  exists w1, w2, j1.
  split; [done |]. split; [done |].
  split.
  { apply Forall_fmap, Forall_true. by intros c. }
  do 7 (split; [done |]).
  unfold handleJobFinished.
  erewrite (bind_some (modify _)); [|reflexivity].
  erewrite (bind_some (gets _)); [|reflexivity].
  erewrite (bind_some (lift _)); [|by unfold lift; simpl; rewrite Hthr].
  erewrite (bind_some (jobAt _));
    [|by unfold jobAt, mbind, M_bind, gets, lift; simpl; rewrite Hat].
  erewrite (bind_some (deref _)); [|by unfold deref; simpl; rewrite Hj].
  erewrite (bind_some (drainSpawned _ _)); [|exact Hdrain].
  erewrite (bind_some (callCleanup _)); [|exact Hclean].
  reflexivity.
Qed.

#[local] Transparent drainSpawned.

(** *** Runs of the manager *)

(** C1.  One run, two terminal events.  Two threads, four jobs;
    [stop()] is called while jobs 0 and 1 run.  The tick for job 0 emits
    nothing (job 1 still runs).  The tick for job 1 finds two waiting jobs
    and two idle threads, calls [checkNext()] twice, and each call emits
    [signalStopped]. *)
Theorem stop_emits_signalStopped_twice :
  Scenario.defined Scenario.stop_second_tick (Scenario.fresh 2) = true
  /\ terminals (log (Scenario.after Scenario.stop_first_tick
                       (Scenario.fresh 2))) = []
  /\ terminals (log (Scenario.after Scenario.stop_second_tick
                       (Scenario.fresh 2)))
     = [signalStopped; signalStopped].
Proof. by vm_compute. Qed.

(** C3.  A job is started with the error budget exceeded.  Two threads,
    three jobs, no error allowed; job 0 ends with an error while job 1
    runs, so the manager holds [jmeTooManyErrors] and waits for job 1;
    job 2 waits.  [addThreads(1)] then calls [startNext()], which starts
    job 2. *)
Theorem addThreads_starts_job_over_budget :
  let w1 := Scenario.after Scenario.over_budget (Scenario.fresh 2) in
  let w2 := Scenario.after Scenario.over_budget_addThreads
              (Scenario.fresh 2) in
  Scenario.defined Scenario.over_budget_addThreads (Scenario.fresh 2) = true
  /\ m_iAllowedErrors (jm w1) = 0
  /\ m_iErrors (jm w1) = 1
  /\ m_eError (jm w1) = jmeTooManyErrors
  /\ m_eStatus (jm w1) = sRunning
  /\ m_iRunning (jm w1) = 1
  /\ m_iStarted (jm w1) = 2
  /\ m_quWaiting (jm w1) = [2]
  /\ m_iStarted (jm w2) = 3
  /\ m_iRunning (jm w2) = 2
  /\ m_quWaiting (jm w2) = []
  /\ log w2 = log w1 ++ [CallCanStart 2 true; ThreadStart 0 2 2].
Proof. by vm_compute. Qed.

(** [clear()] empties the job table and the waiting queue and resets
    [m_iStarted], [m_iRunning], the stop flag and the error; it does not
    touch [m_iFinished] and [m_iErrors]. *)
Lemma clear_spec w :
  exists w',
    clear w = Some (tt, w')
    /\ m_vspJobs (jm w') = [] /\ m_quWaiting (jm w') = []
    /\ m_iStarted (jm w') = 0 /\ m_iRunning (jm w') = 0
    /\ m_bStop (jm w') = false /\ m_eError (jm w') = jmeNoError
    /\ m_iFinished (jm w') = m_iFinished (jm w)
    /\ m_iErrors (jm w') = m_iErrors (jm w)
    /\ m_eStatus (jm w') = m_eStatus (jm w).
Proof. eexists. split; [reflexivity |]. by repeat split. Qed.

(** C6.  After [clear()] the number of finished jobs is not 0.  One
    thread, one job, run to completion, then [clear()]: [jobCount()] is 0
    and [finishedCount()] is 1. *)
Theorem clear_keeps_finishedCount :
  let w := Scenario.after Scenario.one_job_done_clear (Scenario.fresh 1) in
  Scenario.defined Scenario.one_job_done_clear (Scenario.fresh 1) = true
  /\ jobCount (jm w) = 0
  /\ m_quWaiting (jm w) = []
  /\ m_iStarted (jm w) = 0
  /\ m_iRunning (jm w) = 0
  /\ finishedCount (jm w) = 1.
Proof. by vm_compute. Qed.


(** After a first batch of two jobs, [clear()] and a second batch of one
    job, the manager runs with one job in the table, but thread 1 holds
    the index 1, behind the end of the job table: [stop()] reads out of
    range. *)
Lemma stop_second_batch_out_of_range :
  let w := Scenario.after Scenario.second_batch (Scenario.fresh 2) in
  Scenario.defined Scenario.second_batch (Scenario.fresh 2) = true
  /\ isRunning (jm w) = true
  /\ jobCount (jm w) = 1
  /\ Thread.jobIndex <$> m_vThreads (jm w) = [0; 1]
  /\ stop w = None.
Proof.
  repeat split; by vm_compute.
Qed.

(** *** Instances *)

Lemma three_jobs_consistent :
  consistent (Scenario.after Scenario.three_jobs (Scenario.fresh 2)).
Proof.
  split; vm_compute; repeat constructor; intros; discriminate.
Defined.






(** [handleJobFinished_drains_before_cleanup] on a manager with one
    thread whose job spawns two jobs: the handler is the rest of the
    handler run on a state with three jobs in the table. *)
Lemma handleJobFinished_drains_before_cleanup_witness :
  exists w2,
    handleJobFinished 0%nat
      (Scenario.after Scenario.spawning_run (Scenario.fresh 1))
    = handleJobFinished_account 0%nat 0%nat w2
    /\ m_vspJobs (jm w2) = [0; 1; 2]%nat.
Proof.
  destruct (handleJobFinished_drains_before_cleanup 0%nat
              (Scenario.after Scenario.spawning_run (Scenario.fresh 1))
              (Thread.mk 0 (Some 0%nat) false) 0%nat
              (AbstractJob.with_data
                 (AbstractJob.moveToThread CreatorThread
                    (AbstractJob.init "spawning"))
                 Scenario.spawning))
    as (w1 & w2 & j1 & Hheap & Hj1 & Hsp & Hjobs & Hwait & Hlog & Hcl
        & Hheap2 & Hjm & Hlog2 & Hrest).
  - by vm_compute.
  - by vm_compute.
  - by vm_compute.
  - exists w2. split; [exact Hrest |].
    rewrite Hjm, Hjobs. by vm_compute.
Defined.

End JobManagerFacts.

(** ** AbstractSessionManager *)

Section SessionManagerFacts.

Import AbstractSessionManager.

Variable vt : Virtuals.

Implicit Types (s : Session).

Ltac smrun :=
  repeat (progress (unfold mbind, SM_bind, mret, SM_ret, gets, modify, emit;
                    simpl)).

(** An operation of the job manager that emits no signal reaches the
    session manager only through the state of the job manager. *)
Lemma onManager_silent {A : Type} (c : JobManager.M A) s (a : A) w :
  c (m_jm s) = Some (a, w) ->
  JobManager.signals (drop (length (JobManager.log (m_jm s)))
                           (JobManager.log w)) = [] ->
  onManager vt c s = Some (a, set_jm w s).
Proof.
  intros Hc Hsig. unfold onManager. by rewrite Hc, Hsig.
Qed.

(** C9.  When the internal job manager reports completion of a session
    while the session manager runs, the session manager emits
    [signalSessionFinished] with the index of the session and increments
    the index.  If the new index is below [sessionCount()], the state is
    [sPaused] and a single-shot timer with the session timeout is set for
    [startNextSession()]; no [signalFinished] is emitted.  Otherwise the
    state is [sFinished], [signalFinished] is emitted, and no timer is
    set.  When the timer fires (and the stop flag of the job manager is
    clear), [startNextSession()] clears the job manager, sets the allowed
    errors of the session, fills the job manager with
    [initNextSession()], and starts it with the state [sRunning]. *)
Theorem handleFinished_spec s :
  (m_eStatus s = sRunning ->
   exists s',
     handleFinished vt s = Some (tt, s')
     /\ m_iSessionIndex s' = m_iSessionIndex s + 1
     /\ m_jm s' = m_jm s
     /\ m_iFinished s' = m_iFinished s
     /\ m_iSessionTimeout s' = m_iSessionTimeout s
     /\ (m_iSessionIndex s + 1 < sessionCount vt ->
         m_eStatus s' = sPaused
         /\ out s' = out s ++ [signalSessionFinished (m_iSessionIndex s)]
         /\ pending s' = pending s ++ [m_iSessionTimeout s])
     /\ (sessionCount vt <= m_iSessionIndex s + 1 ->
         m_eStatus s' = sFinished
         /\ out s' = out s ++ [signalSessionFinished (m_iSessionIndex s);
                               signalFinished]
         /\ pending s' = pending s)
     /\ (signalFinished ∈ drop (length (out s)) (out s')
         <-> sessionCount vt <= m_iSessionIndex s + 1))
  /\ (forall (delay : Z) (rest : list Z) (wc wi w' : JobManager.World),
        pending s = delay :: rest ->
        JobManager.isStopped (JobManager.jm (m_jm s)) = false ->
        (JobManager.clear ;;
         JobManager.setAllowedErrors (allowedErrors vt (m_iSessionIndex s)))
          (m_jm s) = Some (tt, wc) ->
        initNextSession vt (m_iSessionIndex s) wc = Some (tt, wi) ->
        JobManager.signals (drop (length (JobManager.log wc))
                                 (JobManager.log wi)) = [] ->
        JobManager.start wi = Some (true, w') ->
        JobManager.signals (drop (length (JobManager.log wi))
                                 (JobManager.log w')) = [] ->
        fireTimer vt s
        = Some (tt, set_eStatus sRunning (set_jm w' (set_pending rest s)))).
Proof.
  split.
  - intros Hst. unfold handleFinished. smrun. rewrite Hst. smrun.
    case_bool_decide as Hidx; smrun.
    + eexists. split; [reflexivity |]. simpl.
      do 4 (split; [done |]).
      split; [done |]. split; [lia |].
      rewrite drop_app_length. split; [|lia].
      intros Hin. apply list_elem_of_singleton in Hin. discriminate.
    + eexists. split; [reflexivity |]. simpl.
      do 4 (split; [done |]).
      split; [lia |]. split; [by rewrite <- app_assoc |].
      rewrite <- app_assoc, drop_app_length. split; [lia |].
      intros _. apply list_elem_of_further, list_elem_of_here.
  - intros delay rest wc wi w' Hpending Hstop Hclear Hinit Hsig1 Hstart Hsig2.
    unfold fireTimer. smrun. rewrite Hpending. smrun.
    unfold startNextSession. smrun. rewrite Hstop.
    erewrite (onManager_silent JobManager.clear);
      [|reflexivity | simpl; by rewrite drop_all].
    erewrite (onManager_silent (JobManager.setAllowedErrors _));
      [|reflexivity | simpl; by rewrite drop_all].
    injection Hclear as Hclear. simpl in Hclear.
    simpl. rewrite Hclear.
    erewrite (onManager_silent (initNextSession vt _));
      [|exact Hinit | exact Hsig1].
    erewrite (onManager_silent JobManager.start);
      [|exact Hstart | exact Hsig2].
    reflexivity.
Qed.

End SessionManagerFacts.

(** [handleFinished_spec] on the session manager of the unit tests: at the
    end of session 0 the state is [sPaused] and the index is 1; when the
    timer fires, session 1 runs with its three jobs. *)
Lemma handleFinished_spec_witness :
  (exists s',
      AbstractSessionManager.handleFinished Scenario.three_sessions
        Scenario.in_session_0 = Some (tt, s')
      /\ AbstractSessionManager.m_eStatus s' = AbstractSessionManager.sPaused
      /\ AbstractSessionManager.m_iSessionIndex s' = 1)
  /\ (exists s',
         AbstractSessionManager.fireTimer Scenario.three_sessions
           Scenario.session_0_done = Some (tt, s')
         /\ AbstractSessionManager.m_eStatus s'
            = AbstractSessionManager.sRunning
         /\ JobManager.jobCount
              (JobManager.jm (AbstractSessionManager.m_jm s')) = 3).
Proof.
  split.
  - destruct (handleFinished_spec Scenario.three_sessions
                Scenario.in_session_0) as [Hfinished _].
    destruct Hfinished as (s' & Hrun & Hidx & _ & _ & _ & Hnext & _);
      [by vm_compute |].
    exists s'. split; [exact Hrun |].
    split; [|exact Hidx].
    apply Hnext. by vm_compute.
  - destruct (handleFinished_spec Scenario.three_sessions
                Scenario.session_0_done) as [_ Htimer].
    eexists. split.
    + eapply Htimer.
      * vm_compute. reflexivity.
      * vm_compute. reflexivity.
      * vm_compute. reflexivity.
      * vm_compute. reflexivity.
      * vm_compute. reflexivity.
      * vm_compute. reflexivity.
      * vm_compute. reflexivity.
    + split; by vm_compute.
Defined.

(** * Further properties *)

(** ** Arithmetic on [int] *)

Section IntFacts.

Lemma wrap_in_range (z : Z) : INT_MIN <= z <= INT_MAX -> wrap z = z.
Proof.
  unfold wrap, INT_MIN, INT_MAX. intros Hz. rewrite Z.mod_small; lia.
Qed.

Lemma int_div_positive (a b : Z) : 0 < b -> int_div a b = Some (Z.quot a b).
Proof.
  intros Hb. unfold int_div.
  rewrite bool_decide_eq_false_2 by lia.
  rewrite (bool_decide_eq_false_2 (b = -1)) by lia.
  by rewrite andb_false_r.
Qed.

(** A part of a whole in percent. *)
Lemma percent_bounds (a n : Z) :
  0 <= a <= 100 * n -> 0 < n -> 0 <= Z.quot a n <= 100.
Proof.
  intros Ha Hn. rewrite Z.quot_div_nonneg by lia. split.
  - apply Z.div_pos; lia.
  - apply Z.div_le_upper_bound; lia.
Qed.

(** [(100*i + p)/n] on [int] for the part [i] of [n] parts and the share
    [p] of part [i]: no overflow as long as [100*n] is an [int]. *)
Lemma int_percent (i p n : Z) :
  0 <= i < n ->
  n <= 21474836 ->
  0 <= p <= 100 ->
  int_add (int_mul 100 i) p = 100 * i + p
  /\ int_div (int_add (int_mul 100 i) p) n = Some (Z.quot (100 * i + p) n)
  /\ 0 <= Z.quot (100 * i + p) n <= 100.
Proof.
  intros Hi Hn Hp. unfold int_add, int_mul.
  rewrite (wrap_in_range (100 * i)) by (unfold INT_MIN, INT_MAX; lia).
  rewrite wrap_in_range by (unfold INT_MIN, INT_MAX; lia).
  split; [done |].
  split; [apply int_div_positive; lia | apply percent_bounds; lia].
Qed.

End IntFacts.

(** ** AbstractJob *)

Section AbstractJobMore.

Import AbstractJob.

Implicit Types (finished : JobPtr -> bool) (d : Data) (j : t).

Lemma canStart_loop_idempotent finished (deps : list JobPtr) :
  canStart_loop finished (canStart_loop finished deps)
  = canStart_loop finished deps.
Proof.
  induction deps as [|first rest IH]; simpl; [done |].
  destruct (finished first) eqn:Hfirst; [done |].
  simpl. by rewrite Hfirst.
Qed.

Lemma canStart_loop_all finished (deps : list JobPtr) :
  Forall (fun p => finished p = true) deps ->
  canStart_loop finished deps = [].
Proof.
  induction 1 as [|p deps Hp _ IH]; simpl; [done |]. by rewrite Hp.
Qed.

(** X1.  Asking again changes nothing: a second [canStart()] with the same
    finished flags gives the same answer and the same dependency list. *)
Theorem canStart_idempotent finished d :
  canStart finished (snd (canStart finished d)) = canStart finished d.
Proof.
  unfold canStart; simpl. by rewrite canStart_loop_idempotent.
Qed.

(** X2.  Once [canStart()] has answered true the job stays ready: the
    dependencies are gone from the list, so every later call answers
    true, whatever the finished flags of other jobs are by then. *)
Theorem canStart_stays_true finished d :
  fst (canStart finished d) = true ->
  forall finished',
    canStart finished' (snd (canStart finished d))
    = (true, snd (canStart finished d)).
Proof.
  unfold canStart; simpl. intros Hready finished'.
  apply bool_decide_eq_true in Hready.
  destruct (canStart_loop finished (m_vspDependency d)) as [|p l] eqn:Hloop;
    [done |].
  unfold count in Hready. simpl in Hready. lia.
Qed.

Lemma canStart_stays_true_witness :
  canStart (fun _ => false)
    (snd (canStart (fun _ => true) (addDependency (Some 7%nat) (init "job"))))
  = (true,
     snd (canStart (fun _ => true) (addDependency (Some 7%nat) (init "job")))).
Proof.
  apply (canStart_stays_true (fun _ => true)
           (addDependency (Some 7%nat) (init "job"))).
  reflexivity.
Defined.

(** X3.  Dependencies are checked in the order they were added.  A job
    whose dependencies are all finished and which gets one more, not
    finished, cannot start, and only the new dependency is left; adding
    the null pointer changes nothing. *)
Theorem addDependency_then_canStart finished d (p : JobPtr) :
  addDependency None d = d
  /\ dependencyCount (addDependency (Some p) d) = dependencyCount d + 1
  /\ (Forall (fun q => finished q = true) (m_vspDependency d) ->
      finished p = false ->
      canStart finished (addDependency (Some p) d)
      = (false, set_vspDependency [p] d)).
Proof.
  split; [done |]. split.
  - unfold dependencyCount, count; simpl. rewrite length_app; simpl. lia.
  - intros Hall Hp. unfold canStart; simpl.
    assert (canStart_loop finished (m_vspDependency d ++ [p]) = [p]) as ->.
    { induction Hall as [|q deps Hq _ IH]; simpl.
      - by rewrite Hp.
      - by rewrite Hq. }
    done.
Qed.

Lemma addDependency_then_canStart_witness :
  canStart (fun q => bool_decide (q = 0%nat))
    (addDependency (Some 1%nat) (addDependency (Some 0%nat) (init "job")))
  = (false, set_vspDependency [1%nat]
              (addDependency (Some 0%nat) (init "job"))).
Proof.
  apply (addDependency_then_canStart (fun q => bool_decide (q = 0%nat))
           (addDependency (Some 0%nat) (init "job")) 1%nat).
  - by repeat constructor.
  - reflexivity.
Defined.

(** X4.  [exec()] starts from a clean slate: a [stop()] or a
    [reportError()] that reached the job before [exec()] began is
    forgotten, the run and its signal are those of the job without it. *)
Theorem exec_forgets_earlier_stop_and_error j (iErr : Z) :
  exec (with_data (stop (data j)) j) = exec j
  /\ exec (with_data (reportError iErr (data j)) j) = exec j
  /\ exec (with_data (stop (reportError iErr (data j))) j) = exec j.
Proof. destruct j as [[] ? ? ? ?]. by repeat split. Qed.

(** X5.  For a job that was not finished and whose body leaves the
    finished flag alone, the flag after [exec()] and [cleanup()] tells
    which signal [exec()] emitted: the job is finished if and only if the
    signal was [signalFinished]. *)
Theorem finished_iff_signalFinished j :
  m_bFinished
    (process j (set_iError 0 (set_bStop false (data j)))) = false ->
  m_bFinished (cleanup (data (fst (exec j)))) = true
  <-> snd (exec j) = [signalFinished].
Proof.
  intros Hbody. rewrite cleanup_finished.
  unfold exec, release; simpl.
  set (body := process j _) in *. rewrite Hbody; simpl.
  destruct (bool_decide (m_iError body = 0)); simpl; [|done].
  by destruct (m_bStop body).
Qed.

Lemma finished_iff_signalFinished_witness :
  m_bFinished (cleanup (data (fst (exec Scenario.failing)))) = true
  <-> snd (exec Scenario.failing) = [signalFinished].
Proof. apply (finished_iff_signalFinished Scenario.failing). reflexivity. Defined.

End AbstractJobMore.

(** ** JobQueue *)

Section JobQueueFacts.

Import JobQueue.

Implicit Types (q : t) (j : AbstractJob.t) (stopAt : Z -> bool).

Lemma processCurrent_succeeds (done rest : list AbstractJob.t) j q :
  m_vJobs q = done ++ j :: rest ->
  m_iCurrent q = count done ->
  ~ fails j ->
  processCurrent j q = set_vJobs (done ++ ran j :: rest) q.
Proof.
  intros Hjobs Hcur Hok. unfold processCurrent.
  rewrite bool_decide_eq_false_2 by done.
  f_equal. rewrite Hjobs, Hcur. unfold count. rewrite Nat2Z.id.
  replace (length done) with (length done + 0)%nat by lia.
  by rewrite insert_app_r.
Qed.

Lemma processCurrent_fails (done rest : list AbstractJob.t) j q :
  m_vJobs q = done ++ j :: rest ->
  m_iCurrent q = count done ->
  fails j ->
  processCurrent j q
  = set_base (AbstractJob.set_iError
                (AbstractJob.errorCode (AbstractJob.data (ran j))) (base q))
             (set_vJobs (done ++ ran j :: rest) q).
Proof.
  intros Hjobs Hcur Hfail. unfold processCurrent.
  rewrite bool_decide_eq_true_2 by done.
  f_equal. f_equal. rewrite Hjobs, Hcur. unfold count. rewrite Nat2Z.id.
  replace (length done) with (length done + 0)%nat by lia.
  by rewrite insert_app_r.
Qed.

Lemma at_middle {A : Type} (l1 l2 : list A) (x : A) :
  at_ (l1 ++ x :: l2) (count l1) = Some x.
Proof.
  unfold at_, count. rewrite bool_decide_eq_true_2 by lia.
  rewrite Nat2Z.id. by apply list_lookup_middle.
Qed.

(** The loop runs the jobs [pre] that do not fail, while no [stop()]
    arrives, and goes on behind them. *)
Lemma process_loop_run stopAt (pre : list AbstractJob.t) :
  forall (done rest : list AbstractJob.t) (fuel : nat) q,
    m_vJobs q = done ++ pre ++ rest ->
    m_iCurrent q = count done ->
    clean q ->
    Forall (fun j => ~ fails j) pre ->
    (forall i, count done <= i < count done + count pre ->
               stopAt i = false) ->
    process_loop stopAt (length pre + fuel) q
    = process_loop stopAt fuel
        (mk (base q) (done ++ (ran <$> pre) ++ rest)
            (count done + count pre)).
Proof.
  induction pre as [|j pre IH]; intros done rest fuel q Hjobs Hcur Hclean
                                       Hok Hstop.
  - simpl. destruct q as [b v c]; simpl in *. subst.
    unfold count; simpl. by rewrite Z.add_0_r.
  - inversion Hok as [|? ? Hj Hpre]; subst.
    destruct Hclean as [Herr Hflag].
    change (length (j :: pre) + fuel)%nat with (S (length pre + fuel)).
    simpl process_loop.
    rewrite Hjobs, Hcur, Herr.
    rewrite (bool_decide_eq_true_2 (count done < _)).
    2:{ unfold count. rewrite !length_app; simpl. lia. }
    rewrite (bool_decide_eq_true_2 (0 = 0)) by done. simpl andb. cbv iota.
    rewrite Hstop.
    2:{ unfold count; simpl. lia. }
    rewrite Hflag, Hjobs, Hcur. simpl app.
    rewrite at_middle.
    rewrite (processCurrent_succeeds done (pre ++ rest)) by done.
    simpl m_iCurrent. rewrite Hcur.
    rewrite (IH (done ++ [ran j]) rest).
    + f_equal. simpl. f_equal.
      * by rewrite <- app_assoc.
      * unfold count. rewrite length_app; simpl. lia.
    + simpl. by rewrite <- app_assoc.
    + simpl. unfold count. rewrite length_app; simpl. lia.
    + done.
    + done.
    + intros i Hi. apply Hstop. unfold count in *.
      rewrite length_app in Hi; simpl in *. lia.
Qed.

Lemma process_loop_exit stopAt (fuel : nat) q :
  ~ (m_iCurrent q < count (m_vJobs q)
     /\ AbstractJob.m_iError (base q) = 0) ->
  process_loop stopAt fuel q = q.
Proof.
  intros Hexit.
  assert (bool_decide (m_iCurrent q < count (m_vJobs q))
          && bool_decide (AbstractJob.m_iError (base q) = 0) = false) as Htest.
  { apply andb_false_iff.
    destruct (decide (m_iCurrent q < count (m_vJobs q)));
      [right | left]; apply bool_decide_eq_false; tauto. }
  destruct fuel; simpl; by rewrite Htest.
Qed.

Lemma process_all_ok stopAt q :
  clean q ->
  Forall (fun j => ~ fails j) (m_vJobs q) ->
  (forall i, 0 <= i < count (m_vJobs q) -> stopAt i = false) ->
  process stopAt q
  = mk (base q) (ran <$> m_vJobs q) (count (m_vJobs q)).
Proof.
  intros Hclean Hok Hstop. unfold process.
  replace (length (m_vJobs q)) with (length (m_vJobs q) + 0)%nat by lia.
  rewrite (process_loop_run stopAt (m_vJobs q) [] [] 0 (set_iCurrent 0 q)).
  - rewrite process_loop_exit.
    + simpl. by rewrite app_nil_r.
    + simpl. unfold count. rewrite app_nil_r, length_fmap. simpl. lia.
  - simpl. by rewrite app_nil_r.
  - done.
  - done.
  - done.
  - intros i Hi. apply Hstop. unfold count in *. simpl in Hi. lia.
Qed.

Lemma process_first_failure stopAt q (pre post : list AbstractJob.t) j :
  m_vJobs q = pre ++ j :: post ->
  clean q ->
  Forall (fun j => ~ fails j) pre ->
  fails j ->
  (forall i, 0 <= i <= count pre -> stopAt i = false) ->
  process stopAt q
  = mk (AbstractJob.set_iError
          (AbstractJob.errorCode (AbstractJob.data (ran j))) (base q))
       ((ran <$> pre) ++ ran j :: post)
       (count pre + 1).
Proof.
  intros Hjobs Hclean Hok Hfail Hstop. unfold process.
  rewrite Hjobs. rewrite length_app. simpl length.
  rewrite (process_loop_run stopAt pre [] (j :: post) (S (length post))
             (set_iCurrent 0 q)); try done.
  2:{ intros i Hi. apply Hstop. unfold count in *. simpl in Hi. lia. }
  destruct Hclean as [Herr Hflag].
  change (count (@nil AbstractJob.t)) with 0. rewrite Z.add_0_l.
  change ([] ++ (ran <$> pre) ++ j :: post)
    with ((ran <$> pre) ++ j :: post).
  replace (count pre) with (count (ran <$> pre))
    by (unfold count; by rewrite length_fmap).
  simpl process_loop. simpl base. rewrite Herr.
  rewrite (bool_decide_eq_true_2 (_ < _)).
  2:{ unfold count. rewrite length_app; simpl. lia. }
  rewrite (bool_decide_eq_true_2 (0 = 0)) by done. simpl andb. cbv iota.
  rewrite Hstop by (unfold count; rewrite length_fmap; lia).
  cbn [base m_vJobs m_iCurrent]. rewrite Hflag.
  rewrite at_middle.
  rewrite (processCurrent_fails (ran <$> pre) post) by done.
  rewrite process_loop_exit.
  - done.
  - simpl. intros [_ Hzero].
    unfold fails, AbstractJob.errorCode in *. simpl in *. lia.
Qed.

Lemma process_stopped stopAt q (pre post : list AbstractJob.t) j :
  m_vJobs q = pre ++ j :: post ->
  clean q ->
  Forall (fun j => ~ fails j) pre ->
  (forall i, 0 <= i < count pre -> stopAt i = false) ->
  stopAt (count pre) = true ->
  process stopAt q
  = mk (AbstractJob.stop (base q)) ((ran <$> pre) ++ j :: post) (count pre).
Proof.
  intros Hjobs Hclean Hok Hstop Hnow. unfold process.
  rewrite Hjobs. rewrite length_app. simpl length.
  rewrite (process_loop_run stopAt pre [] (j :: post) (S (length post))
             (set_iCurrent 0 q)); try done.
  destruct Hclean as [Herr Hflag].
  change (count (@nil AbstractJob.t)) with 0. rewrite Z.add_0_l.
  change ([] ++ (ran <$> pre) ++ j :: post)
    with ((ran <$> pre) ++ j :: post).
  simpl process_loop. simpl base. rewrite Herr.
  rewrite (bool_decide_eq_true_2 (_ < _)).
  2:{ unfold count. rewrite length_app, length_fmap; simpl. lia. }
  rewrite (bool_decide_eq_true_2 (0 = 0)) by done. simpl andb. cbv iota.
  by rewrite Hnow.
Qed.

Lemma clean_reset q :
  clean (set_base (AbstractJob.set_iError 0
                     (AbstractJob.set_bStop false (base q))) q).
Proof. by split. Qed.

(** X6.  A queue whose jobs all end without a positive error code, with
    no [stop()] on the way, runs every job once, in order: [exec()] leaves
    the index of the current job at the number of jobs and emits
    [signalFinished]. *)
Theorem queue_runs_all stopAt q :
  Forall (fun j => ~ fails j) (m_vJobs q) ->
  (forall i, 0 <= i < count (m_vJobs q) -> stopAt i = false) ->
  m_vJobs (fst (exec stopAt q)) = ran <$> m_vJobs q
  /\ m_iCurrent (fst (exec stopAt q)) = jobCount q
  /\ AbstractJob.errorCode (base (fst (exec stopAt q))) = 0
  /\ snd (exec stopAt q) = [AbstractJob.signalFinished].
Proof.
  intros Hok Hstop. unfold exec.
  rewrite (process_all_ok stopAt _ (clean_reset q) Hok Hstop).
  by repeat split.
Qed.

(** X7.  A queue stops at the first job that ends with a positive error
    code: the jobs before it and the job itself have run, the jobs behind
    it have not, the error code of the queue is that of the job, and
    [exec()] emits [signalError].  An error code that is not positive
    does not stop the queue. *)
Theorem queue_stops_at_first_error stopAt q
    (pre post : list AbstractJob.t) j :
  m_vJobs q = pre ++ j :: post ->
  Forall (fun j => ~ fails j) pre ->
  fails j ->
  (forall i, 0 <= i <= count pre -> stopAt i = false) ->
  m_vJobs (fst (exec stopAt q)) = (ran <$> pre) ++ ran j :: post
  /\ m_iCurrent (fst (exec stopAt q)) = count pre + 1
  /\ AbstractJob.errorCode (base (fst (exec stopAt q)))
     = AbstractJob.errorCode (AbstractJob.data (ran j))
  /\ snd (exec stopAt q) = [AbstractJob.signalError].
Proof.
  intros Hjobs Hok Hfail Hstop. unfold exec.
  rewrite (process_first_failure stopAt
             (set_base (AbstractJob.set_iError 0
                (AbstractJob.set_bStop false (base q))) q)
             pre post j Hjobs (clean_reset q) Hok Hfail Hstop).
  simpl. repeat split.
  rewrite bool_decide_eq_false_2; [done |].
  unfold fails in Hfail. simpl in Hfail. lia.
Qed.

(** X8.  A [stop()] that reaches the queue before the check of job
    [count pre] ends the run there: the jobs before it have run, that job
    and the ones behind it have not, and [exec()] emits
    [signalStopped]. *)
Theorem queue_stop_between_jobs stopAt q (pre post : list AbstractJob.t) j :
  m_vJobs q = pre ++ j :: post ->
  Forall (fun j => ~ fails j) pre ->
  (forall i, 0 <= i < count pre -> stopAt i = false) ->
  stopAt (count pre) = true ->
  m_vJobs (fst (exec stopAt q)) = (ran <$> pre) ++ j :: post
  /\ m_iCurrent (fst (exec stopAt q)) = count pre
  /\ AbstractJob.errorCode (base (fst (exec stopAt q))) = 0
  /\ AbstractJob.isStopped (base (fst (exec stopAt q))) = true
  /\ snd (exec stopAt q) = [AbstractJob.signalStopped].
Proof.
  intros Hjobs Hok Hstop Hnow. unfold exec.
  rewrite (process_stopped stopAt
             (set_base (AbstractJob.set_iError 0
                (AbstractJob.set_bStop false (base q))) q)
             pre post j Hjobs (clean_reset q) Hok Hstop Hnow).
  by repeat split.
Qed.

(** X9.  The progress of a queue of at most 21474836 jobs (so that
    [100*m_iCurrent + 100] is an [int]) is a percentage when the progress
    of its jobs is: 0 before the first run and after [clear()], 100 once
    the index of the current job has passed the last job, and in between
    the quotient [(100*m_iCurrent + progress of the current job) /
    jobCount()], which lies between 0 and 100. *)
Theorem queue_progress_bounds (v_progress : AbstractJob.t -> Z) q :
  (forall j, 0 <= v_progress j <= 100) ->
  jobCount q <= 21474836 ->
  0 <= progress v_progress q <= 100
  /\ progress v_progress init = 0
  /\ progress v_progress (clear q) = 0
  /\ (0 <= m_iCurrent q -> jobCount q <= m_iCurrent q ->
      progress v_progress q = 100)
  /\ (forall j,
        at_ (m_vJobs q) (m_iCurrent q) = Some j ->
        m_iCurrent q < jobCount q ->
        progress v_progress q
        = Z.quot (100 * m_iCurrent q + v_progress j) (jobCount q)).
Proof.
  intros Hsub Hsize. split; [|split; [done |split; [done |split]]].
  - unfold progress, jobCount in *. repeat case_bool_decide; try lia.
    destruct (at_ (m_vJobs q) (m_iCurrent q)) as [j|]; [|lia].
    destruct (int_percent (m_iCurrent q) (v_progress j) (count (m_vJobs q)))
      as (-> & _ & Hb); [lia | lia | by apply Hsub | exact Hb].
  - intros Hlo Hhi. unfold progress, jobCount in *.
    by repeat case_bool_decide; try lia.
  - intros j Hat Hlt. unfold progress, jobCount in *.
    assert (0 <= m_iCurrent q) as Hlo.
    { unfold at_ in Hat. by case_bool_decide. }
    repeat case_bool_decide; try lia. rewrite Hat.
    by destruct (int_percent (m_iCurrent q) (v_progress j)
                   (count (m_vJobs q))) as (-> & _); [lia | lia | apply Hsub |].
Qed.

End JobQueueFacts.

(** ** JobManager *)

Section JobManagerMore.

Import JobManager.

Implicit Types (w : World) (m : Manager).

Ltac mrun :=
  repeat (progress (unfold mbind, M_bind, mret, M_ret, gets, modify, lift,
                      deref, store, record, emit, getHeap, alloc, fail;
                    simpl)).

(** *** [appendJob()] *)

(** X10.  [appendJob()] puts the job behind all others: the new job gets
    the next index of the job table, [job()] at that index returns the
    pointer to it, the index goes to the back of the waiting queue, and
    nothing else changes; in particular nothing is started, also while
    the manager runs. *)
Theorem appendJob_spec (pJob : AbstractJob.t) w :
  exists w',
    appendJob pJob w = Some (tt, w')
    /\ jobCount (jm w') = jobCount (jm w) + 1
    /\ job (jm w') (jobCount (jm w)) = Some (length (heap w))
    /\ heap w' !! length (heap w) = Some pJob
    /\ heap w' = heap w ++ [pJob]
    /\ m_vspJobs (jm w') = m_vspJobs (jm w) ++ [length (heap w)]
    /\ m_quWaiting (jm w') = m_quWaiting (jm w) ++ [jobCount (jm w)]
    /\ jm w' = set_vspJobs (m_vspJobs (jm w'))
                 (set_quWaiting (m_quWaiting (jm w')) (jm w))
    /\ log w' = log w.
Proof.
  eexists. split; [reflexivity |]. simpl.
  split; [|split; [|split]]; try done.
  - unfold jobCount, count; simpl. rewrite length_app; simpl. lia.
  - unfold job, jobCount, at_, count; simpl.
    rewrite bool_decide_eq_true_2 by lia. rewrite Nat2Z.id.
    by apply list_lookup_middle.
  - by apply list_lookup_middle.
Qed.

Lemma appendJob_consistent (pJob : AbstractJob.t) w w' :
  consistent w ->
  appendJob pJob w = Some (tt, w') ->
  consistent w'.
Proof.
  intros [Hwait Hjobs] Hrun. injection Hrun as <-. split; simpl.
  - apply Forall_app. split.
    + eapply Forall_impl; [exact Hwait |]. intros i Hi; simpl in Hi.
      unfold count in *. rewrite length_app; simpl. lia.
    + repeat constructor; unfold count; [lia |].
      rewrite length_app; simpl. lia.
  - apply Forall_app. split.
    + eapply Forall_impl; [exact Hjobs |]. intros q Hq; simpl in Hq.
      rewrite length_app; simpl. lia.
    + repeat constructor. rewrite length_app; simpl. lia.
Qed.

(** *** [startNext()]: the order of the waiting queue *)

Lemma canStart_calls_cons (jobs : list nat) (i : Z) (l : list Z) (r : bool)
    (p : nat) :
  at_ jobs i = Some p ->
  canStart_calls jobs (i :: l) r
  = CallCanStart p r :: canStart_calls jobs l r.
Proof. intros Hat. unfold canStart_calls. simpl. by rewrite Hat. Qed.

(** The loop of [startNext()] asks the waiting jobs in the order of the
    queue.  Jobs that cannot start go to the back; the first job that can
    is started. *)
Lemma startNext_loop_fifo (a : list Z) :
  forall (b : list Z) (tid : nat) w,
    consistent w ->
    m_quWaiting (jm w) = a ++ b ->
    exists (r : bool) w',
      startNext_loop (length a) tid w = Some (r, w')
      /\ if r then
           exists (skipped : list Z) (i : Z) (rest : list Z) (p : nat),
             a = skipped ++ i :: rest
             /\ at_ (m_vspJobs (jm w)) i = Some p
             /\ m_quWaiting (jm w') = rest ++ b ++ skipped
             /\ log w' = log w
                  ++ canStart_calls (m_vspJobs (jm w)) skipped false
                  ++ [CallCanStart p true; ThreadStart tid i p]
             /\ m_vThreads (jm w')
                = alter (Thread.start i (Some p)) tid (m_vThreads (jm w))
         else
           m_quWaiting (jm w') = b ++ a
           /\ log w' = log w ++ canStart_calls (m_vspJobs (jm w)) a false
           /\ m_vThreads (jm w') = m_vThreads (jm w).
Proof.
  induction a as [|i a IH]; intros b tid w Hc Hq.
  - exists false, w. split; [done |]. simpl in *.
    by rewrite !app_nil_r.
  - destruct Hc as [Hwait Hjobs]. simpl in Hq.
    rewrite Hq in Hwait.
    inversion Hwait as [|? ? Hi Hrest]; subst.
    destruct (at_is_Some _ _ Hi) as [p Hat].
    assert (Hp : (p < length (heap w))%nat).
    { rewrite Forall_forall in Hjobs. apply Hjobs. by eapply at_elem_of. }
    destruct (lookup_lt_is_Some_2 _ _ Hp) as [j Hj].
    simpl length. simpl startNext_loop.
    remember (startNext_loop (length a) tid) as rest_loop eqn:Hloop.
    unfold frontWaiting, jobAt, callCanStart, dequeueWaiting, enqueueWaiting,
      threadStart.
    mrun. rewrite Hq. mrun. rewrite Hat. mrun. rewrite Hj. mrun.
    destruct (AbstractJob.v_canStart j (finished_in (heap w))
                (AbstractJob.data j)) as [r d] eqn:Hcs.
    mrun. destruct r; mrun; rewrite Hq; mrun.
    + rewrite Hat. mrun.
      rewrite list_lookup_insert_eq by done. mrun.
      eexists true, _. split; [reflexivity |].
      exists [], i, a, p. simpl.
      rewrite app_nil_r, <- !app_assoc. by repeat split.
    + subst rest_loop.
      match goal with
      | |- exists r w', startNext_loop (length a) tid ?w1 = _ /\ _ =>
          destruct (IH (b ++ [i]) tid w1) as (r & w' & Hrun & Hres)
      end.
      { split; simpl.
        - apply Forall_app. split; [done | by constructor].
        - by rewrite length_insert. }
      { simpl. by rewrite <- app_assoc. }
      exists r, w'. split; [done |]. simpl in Hres.
      destruct r.
      * destruct Hres as (skipped & i' & rest & p' & Ha & Hat' & Hw' & Hlog
                          & Hthr).
        exists (i :: skipped), i', rest, p'.
        rewrite (canStart_calls_cons _ _ _ _ _ Hat).
        rewrite Hw', Hlog, Hthr, Ha, <- !app_assoc. by repeat split.
      * destruct Hres as (Hw' & Hlog & Hthr).
        rewrite Hw', Hlog, Hthr, <- !app_assoc. by repeat split.
Qed.

(** X11.  [startNext()] takes the thread at the front of the idle queue
    and serves the waiting queue first in, first out.  When every job of
    the table was started already, only the idle queue turns.  Otherwise
    the waiting jobs are asked [canStart()] in queue order.  If none can
    start, the waiting queue is back in its order, the thread goes to the
    back of the idle queue, and [jmeNoJobReady] is recorded exactly when
    no job runs.  If one can, the first such job is started on the
    thread and leaves the queue, and the jobs asked before it are now
    behind the others, in their order. *)
Theorem startNext_fifo w (tid : nat) (q : list nat) :
  consistent w ->
  m_quIdle (jm w) = tid :: q ->
  exists w',
    startNext w = Some (tt, w')
    /\ m_vspJobs (jm w') = m_vspJobs (jm w)
    /\ ((~ m_iStarted (jm w) < jobCount (jm w)
         /\ jm w' = set_quIdle (q ++ [tid]) (jm w)
         /\ log w' = log w)
        \/ (m_iStarted (jm w) < jobCount (jm w)
            /\ m_quWaiting (jm w') = m_quWaiting (jm w)
            /\ m_quIdle (jm w') = q ++ [tid]
            /\ m_vThreads (jm w') = m_vThreads (jm w)
            /\ m_iStarted (jm w') = m_iStarted (jm w)
            /\ m_iRunning (jm w') = m_iRunning (jm w)
            /\ log w' = log w ++ canStart_calls (m_vspJobs (jm w))
                                   (m_quWaiting (jm w)) false
            /\ m_eError (jm w')
               = if bool_decide (m_iRunning (jm w) = 0)
                 then jmeNoJobReady else m_eError (jm w))
        \/ (m_iStarted (jm w) < jobCount (jm w)
            /\ exists (skipped : list Z) (i : Z) (rest : list Z) (p : nat),
                 m_quWaiting (jm w) = skipped ++ i :: rest
                 /\ at_ (m_vspJobs (jm w)) i = Some p
                 /\ m_quWaiting (jm w') = rest ++ skipped
                 /\ m_quIdle (jm w') = q
                 /\ m_vThreads (jm w')
                    = alter (Thread.start i (Some p)) tid (m_vThreads (jm w))
                 /\ m_iStarted (jm w') = m_iStarted (jm w) + 1
                 /\ m_iRunning (jm w') = m_iRunning (jm w) + 1
                 /\ m_eError (jm w') = m_eError (jm w)
                 /\ log w' = log w
                      ++ canStart_calls (m_vspJobs (jm w)) skipped false
                      ++ [CallCanStart p true; ThreadStart tid i p])).
Proof.
  intros Hc Hq.
  unfold startNext, dequeueIdle, enqueueIdle, jobCount. mrun.
  rewrite Hq. mrun.
  case_bool_decide as Hleft; mrun.
  - set (w1 := mkWorld (heap w) (set_quIdle q (jm w)) (log w)).
    destruct (startNext_loop_fifo (m_quWaiting (jm w)) [] tid w1)
      as (r & w' & Hrun & Hfifo); [done | by rewrite app_nil_r |].
    destruct (startNext_loop_spec (length (m_quWaiting (jm w))) tid w1)
      as (r' & w'' & Hrun' & _ & Hf & Hidle' & Herr & Hst & Hru & _);
      [done | done |].
    change (m_quWaiting (jm w1)) with (m_quWaiting (jm w)) in Hrun.
    rewrite Hrun in Hrun'. injection Hrun' as <- <-.
    rewrite Hrun. simpl in *.
    destruct Hf as (Hjobs & _).
    destruct r; mrun.
    + destruct Hfifo as (skipped & i & rest & p & Ha & Hat & Hw' & Hlog
                         & Hthr).
      exists w'. split; [done |]. split; [done |]. right. right.
      split; [done |]. exists skipped, i, rest, p.
      by repeat split.
    + destruct Hfifo as (Hw' & Hlog & Hthr).
      rewrite Hru, Z.add_0_r.
      destruct (bool_decide (m_iRunning (jm w) = 0)); mrun;
        (eexists; split; [reflexivity |]; split; [done |]; right; left;
         simpl; rewrite ?Hidle', ?Hst, ?Hru, ?Z.add_0_r;
         by repeat split).
  - eexists. split; [reflexivity |]. split; [done |]. left.
    by repeat split.
Qed.

(** *** The dispatch step and the completion handler never fail *)

Lemma advanced_refl w : advanced 0 w w.
Proof. unfold advanced. repeat split; lia. Qed.

Lemma advanced_trans k1 k2 w1 w2 w3 :
  advanced k1 w1 w2 -> advanced k2 w2 w3 -> advanced (k1 + k2) w1 w3.
Proof.
  unfold advanced.
  intros (? & ? & ? & ? & ? & ? & ? & ? & ? & ? & ? & ?)
         (? & ? & ? & ? & ? & ? & ? & ? & ? & ? & ? & ?).
  repeat split; try congruence; lia.
Qed.

Lemma dispatched_advanced k w w' : dispatched k w w' -> advanced k w w'.
Proof.
  unfold dispatched, dispatch_frame, advanced.
  intros ((? & ? & ? & ? & ? & ? & ? & ? & ? & ? & ?) & ? & ? & ? & ?).
  by repeat split.
Qed.

Lemma handleError_step w :
  exists w',
    handleError w = Some (negb (bool_decide (m_eError (jm w) = jmeNoError)),
                          w')
    /\ advanced 0 w w'
    /\ (consistent w -> consistent w').
Proof.
  rewrite handleError_spec. eexists. split; [reflexivity |].
  destruct (negb (bool_decide (m_eError (jm w) = jmeNoError))
            && bool_decide (m_iRunning (jm w) = 0)).
  - split; [|done]. unfold advanced; simpl. repeat split; lia.
  - split; [apply advanced_refl | done].
Qed.

#[local] Opaque startNext handleError.

(** [checkNext()] on a consistent state with an idle thread does not
    fail and starts at most one job. *)
Lemma checkNext_step w :
  consistent w ->
  m_quIdle (jm w) <> [] ->
  exists k w',
    checkNext w = Some (tt, w')
    /\ consistent w'
    /\ advanced k w w'
    /\ 0 <= k <= 1.
Proof.
  intros Hc Hidle. unfold checkNext. mrun.
  destruct (bool_decide (0 <= m_iAllowedErrors (jm w))
            && bool_decide (m_iAllowedErrors (jm w) < m_iErrors (jm w)));
    mrun.
  - match goal with
    | |- context [handleError ?w1] =>
        destruct (handleError_step w1) as (w' & Hrun & Hadv & Hcons)
    end.
    rewrite Hrun. simpl. 
    exists 0, w'. split; [done |]. split; [by apply Hcons |].
    split; [|lia].
    replace 0 with (0 + 0) by lia. eapply advanced_trans; [|exact Hadv].
    unfold advanced; simpl. repeat split; lia.
  - destruct (handleError_step w) as (w1 & Hrun & Hadv & Hcons).
    rewrite Hrun.
    destruct (negb (bool_decide (m_eError (jm w) = jmeNoError))) eqn:Herr;
      mrun.
    + exists 0, w1. split; [done |]. split; [by apply Hcons |]. by split.
    + apply negb_false_iff, bool_decide_eq_true in Herr.
      assert (w1 = w) as ->.
      { rewrite handleError_spec in Hrun. rewrite Herr in Hrun.
        simpl in Hrun. by injection Hrun. }
      destruct (m_bStop (jm w)) eqn:Hstop; mrun.
      * destruct (bool_decide (m_iRunning (jm w) = 0)); mrun;
          (eexists 0, _; split; [reflexivity |]; split; [exact Hc |];
           split; [|lia]; unfold advanced; simpl; repeat split; lia).
      * case_bool_decide as Hleft; mrun.
        -- destruct (startNext_spec w Hc Hidle)
             as (k & w2 & Hsn & Hc2 & Hd & Hk & _).
           rewrite Hsn.
           destruct (handleError_step w2) as (w3 & Hrun3 & Hadv3 & Hcons3).
           rewrite Hrun3.
           exists k, w3. split; [done |]. split; [by apply Hcons3 |].
           split; [|lia].
           replace k with (k + 0) by lia.
           eapply advanced_trans; [|exact Hadv3].
           by apply dispatched_advanced.
        -- destruct (bool_decide (0 < interval (m_timer (jm w)))); mrun;
             (eexists 0, _; split; [reflexivity |]; split; [exact Hc |];
              split; [|lia]; unfold advanced; simpl; repeat split; lia).
Qed.

#[local] Transparent startNext handleError.

Lemma repeat_checkNext_step (n : nat) w :
  consistent w ->
  (n <= length (m_quIdle (jm w)))%nat ->
  exists k w',
    repeatM n checkNext w = Some (tt, w')
    /\ consistent w'
    /\ advanced k w w'
    /\ 0 <= k <= Z.of_nat n.
Proof.
  revert w. induction n as [|n IH]; intros w Hc Hn.
  - exists 0, w. split; [done |]. split; [done |].
    split; [apply advanced_refl | lia].
  - destruct (checkNext_step w Hc) as (k1 & w1 & Hrun1 & Hc1 & Ha1 & Hk1).
    { destruct (m_quIdle (jm w)); [simpl in Hn; lia | done]. }
    destruct (IH w1 Hc1) as (k2 & w2 & Hrun2 & Hc2 & Ha2 & Hk2).
    { destruct Ha1 as (_ & _ & _ & _ & _ & _ & _ & _ & _ & _ & _ & Hidle).
      unfold count in Hidle. lia. }
    exists (k1 + k2), w2. split; [|split; [done |split]].
    + simpl. by rewrite (bind_some _ _ _ _ _ Hrun1).
    + by eapply advanced_trans.
    + lia.
Qed.

#[local] Opaque drainSpawned checkNext.

(** [handleJobFinished()] for a thread that holds the index of a job, on
    a consistent state, does not fail. *)
Lemma handleJobFinished_step (sender : nat) w (thr : Thread.t) (p : nat) :
  consistent w ->
  m_vThreads (jm w) !! sender = Some thr ->
  at_ (m_vspJobs (jm w)) (Thread.jobIndex thr) = Some p ->
  exists (j : AbstractJob.t) (k : Z) w',
    heap w !! p = Some j
    /\ handleJobFinished sender w = Some (tt, w')
    /\ consistent w'
    /\ 0 <= k
    /\ m_iFinished (jm w') = m_iFinished (jm w) + 1
    /\ m_iStarted (jm w') = m_iStarted (jm w) + k
    /\ m_iRunning (jm w') = m_iRunning (jm w) - 1 + k
    /\ count (m_quIdle (jm w')) = count (m_quIdle (jm w)) + 1 - k
    /\ count (m_quWaiting (jm w'))
       = count (m_quWaiting (jm w)) + count (AbstractJob.spawned j) - k
    /\ m_vspJobs (jm w')
       = m_vspJobs (jm w)
           ++ seq (length (heap w)) (length (AbstractJob.spawned j))
    /\ length (m_vThreads (jm w')) = length (m_vThreads (jm w))
    /\ (m_iErrors (jm w') = m_iErrors (jm w)
        \/ m_iErrors (jm w') = m_iErrors (jm w) + 1)
    /\ m_iAllowedErrors (jm w') = m_iAllowedErrors (jm w)
    /\ m_bStop (jm w') = m_bStop (jm w).
Proof.
  intros Hc Hthr Hat.
  assert (Hp : (p < length (heap w))%nat).
  { destruct Hc as [_ Hjobs]. rewrite Forall_forall in Hjobs.
    apply Hjobs. by eapply at_elem_of. }
  destruct (lookup_lt_is_Some_2 _ _ Hp) as [j Hj].
  exists j.
  set (l := AbstractJob.spawned j).
  set (w0 := mkWorld (heap w) (set_iFinished (m_iFinished (jm w) + 1) (jm w))
                     (log w)).
  pose proof (drainSpawned_spec p l w0 j Hj eq_refl) as Hdrain.
  match type of Hdrain with _ = Some (tt, ?x) => set (w1 := x) in * end.
  set (j1 := AbstractJob.with_spawned [] j).
  assert (Hj1 : heap w1 !! p = Some j1).
  { simpl. rewrite lookup_app_l by by rewrite length_insert.
    by apply list_lookup_insert_eq. }
  set (j2 := AbstractJob.with_data
               (AbstractJob.v_cleanup j1 (AbstractJob.data j1)) j1).
  set (w2 := mkWorld (<[p := j2]> (heap w1)) (jm w1)
                     (log w1 ++ [CallCleanup p])).
  assert (Hclean : callCleanup p w1 = Some (tt, w2)).
  { unfold callCleanup. unfold mbind at 1, M_bind, deref.
    by rewrite Hj1. }
  assert (Hj2 : heap w2 !! p = Some j2).
  { apply list_lookup_insert_eq. by eapply lookup_lt_Some. }
  assert (Hc2 : consistent w2).
  { destruct Hc as [Hwait Hjobs]. split; simpl.
    - apply Forall_app. split.
      + eapply Forall_impl; [exact Hwait |]. intros i Hi; simpl in Hi.
        unfold count in *. rewrite length_app. lia.
      + apply Forall_fmap, Forall_forall. intros i Hi.
        apply elem_of_seq in Hi. simpl.
        unfold count. rewrite length_app, length_seq. lia.
    - rewrite length_insert, length_app, length_insert, length_fmap.
      apply Forall_app. split.
      + eapply Forall_impl; [exact Hjobs |]. intros q Hq; simpl in Hq. lia.
      + apply Forall_forall. intros q Hq. apply elem_of_seq in Hq. lia. }
  assert (Hfields :
    m_iFinished (jm w2) = m_iFinished (jm w) + 1
    /\ m_iStarted (jm w2) = m_iStarted (jm w)
    /\ m_iRunning (jm w2) = m_iRunning (jm w)
    /\ m_quIdle (jm w2) = m_quIdle (jm w)
    /\ count (m_quWaiting (jm w2)) = count (m_quWaiting (jm w)) + count l
    /\ m_vspJobs (jm w2) = m_vspJobs (jm w) ++ seq (length (heap w)) (length l)
    /\ m_vThreads (jm w2) = m_vThreads (jm w)
    /\ m_iErrors (jm w2) = m_iErrors (jm w)
    /\ m_iAllowedErrors (jm w2) = m_iAllowedErrors (jm w)
    /\ m_bStop (jm w2) = m_bStop (jm w)
    /\ m_bReportJobFinish (jm w2) = m_bReportJobFinish (jm w)).
  { simpl. repeat split; try done.
    unfold count. rewrite length_app, length_fmap, length_seq. lia. }
  destruct Hfields as (Hfi & Hst & Hru & Hid & Hwa & Hjo & Hth & Her & Hal
                       & Hbs & Hre).
  unfold handleJobFinished.
  erewrite (bind_some (modify _)); [|reflexivity].
  erewrite (bind_some (gets _)); [|reflexivity].
  erewrite (bind_some (lift _)); [|by unfold lift; simpl; rewrite Hthr].
  erewrite (bind_some (jobAt _));
    [|by unfold jobAt, mbind, M_bind, gets, lift; simpl; rewrite Hat].
  erewrite (bind_some (deref _)); [|by unfold deref; simpl; rewrite Hj].
  erewrite (bind_some (drainSpawned _ _)); [|exact Hdrain].
  erewrite (bind_some (callCleanup _)); [|exact Hclean].
  clearbody w2. clear Hdrain Hclean Hj1. clearbody w1.
  erewrite (bind_some (enqueueIdle _)); [|reflexivity].
  erewrite (bind_some (modify _)); [|reflexivity].
  erewrite (bind_some (callIsError _));
    [|by unfold callIsError, mbind, M_bind, deref, mret, M_ret; simpl;
         rewrite Hj2].
  assert (Hidle : forall n : nat,
             n = Z.to_nat (qMax 1 (qMin (count (m_quWaiting (jm w2)))
                                        (count (m_quIdle (jm w2) ++ [sender]))))
             -> (n <= length (m_quIdle (jm w2) ++ [sender]))%nat).
  { intros n ->. unfold qMax, qMin, count. rewrite length_app; simpl.
    repeat case_bool_decide; lia. }
  destruct (AbstractJob.isError (AbstractJob.data j2));
    destruct (m_bReportJobFinish (jm w2)) eqn:Hrep;
    mrun; rewrite ?Hrep; mrun;
    match goal with
    | |- context [repeatM ?n checkNext ?w3] =>
        destruct (repeat_checkNext_step n w3)
          as (k & w4 & Hrun & Hc4 & Hadv & Hk);
          [exact Hc2 | by apply Hidle |]
    end;
    rewrite Hrun;
    unfold advanced in Hadv; simpl in Hadv;
    destruct Hadv as (Hjo4 & Hfi4 & Her4 & Hal4 & Hbs4 & Hre4 & Hth4 & Hhe4
                      & Hst4 & Hru4 & Hwa4 & Hid4);
    unfold count in Hid4; rewrite length_app in Hid4; simpl in Hid4;
    (destruct (bool_decide (m_eStatus (jm w4) = sFinished));
     (eexists k, _; split; [done |]; split; [reflexivity |];
      split; [exact Hc4 |]; simpl;
      rewrite ?Hjo4, ?Hfi4, ?Her4, ?Hal4, ?Hbs4, ?Hth4, ?Hst4, ?Hru4, ?Hwa4;
      rewrite ?Hfi, ?Hst, ?Hru, ?Hwa, ?Hjo, ?Hth, ?Her, ?Hal, ?Hbs;
      unfold count in *; rewrite ?Hid4, ?Hid;
      repeat split; try done; try lia; auto)).
Qed.

#[local] Transparent drainSpawned checkNext.

(** X12.  The completion handler is safe and keeps the books.  On a
    consistent state, for a thread that holds the index of a job,
    [handleJobFinished()] runs without an access out of range or an empty
    queue; the state stays consistent, the number of handled jobs grows
    by one, the job table grows by the spawned jobs, and the two balances
    of the manager are kept: started = running + finished, and idle
    threads + running = threads. *)
Theorem handleJobFinished_keeps_invariants
    (sender : nat) w (thr : Thread.t) (p : nat) :
  consistent w ->
  m_vThreads (jm w) !! sender = Some thr ->
  at_ (m_vspJobs (jm w)) (Thread.jobIndex thr) = Some p ->
  exists (j : AbstractJob.t) w',
    heap w !! p = Some j
    /\ handleJobFinished sender w = Some (tt, w')
    /\ consistent w'
    /\ finishedCount (jm w') = finishedCount (jm w) + 1
    /\ jobCount (jm w') = jobCount (jm w) + count (AbstractJob.spawned j)
    /\ threadCount (jm w') = threadCount (jm w)
    /\ (counters_agree w -> counters_agree w')
    /\ (threads_agree w -> threads_agree w').
Proof.
  intros Hc Hthr Hat.
  destruct (handleJobFinished_step sender w thr p Hc Hthr Hat)
    as (j & k & w' & Hj & Hrun & Hc' & Hk & Hfi & Hst & Hru & Hid & Hwa & Hjo
        & Hth & _).
  exists j, w'. split; [done |]. split; [done |]. split; [done |].
  unfold finishedCount, jobCount, threadCount, counters_agree, threads_agree,
    count in *.
  rewrite Hjo, length_app, length_seq, Hth.
  repeat split; try done; lia.
Qed.

(** X13.  [start()] sets up the balances.  On a manager that does not
    run, with jobs in a consistent table and with all threads idle,
    [start()] returns true and leaves a consistent state in which
    started = running + finished (with finished = 0) and idle threads +
    running = threads. *)
Theorem start_sets_up_invariants w :
  m_eStatus (jm w) <> sRunning ->
  m_vspJobs (jm w) <> [] ->
  consistent w ->
  count (m_quIdle (jm w)) = count (m_vThreads (jm w)) ->
  exists w',
    start w = Some (true, w')
    /\ consistent w'
    /\ counters_agree w'
    /\ threads_agree w'
    /\ finishedCount (jm w') = 0
    /\ jobCount (jm w') = jobCount (jm w)
    /\ threadCount (jm w') = threadCount (jm w)
    /\ isRunning (jm w') = true.
Proof.
  intros Hst Hjobs Hc Hidle. unfold start. mrun.
  rewrite bool_decide_eq_false_2 by done. mrun.
  rewrite (bool_decide_eq_false_2 (count _ = 0)).
  2:{ unfold count. destruct (m_vspJobs (jm w)); [done | simpl; lia]. }
  mrun.
  match goal with
  | |- context [repeatM ?n startNext ?w1] =>
      destruct (repeat_startNext_spec n w1)
        as (k & w' & Hrun & Hc' & Hd & Hk & Hw)
  end.
  { exact Hc. }
  { simpl. unfold count, qMin in *. case_bool_decide; lia. }
  rewrite Hrun. simpl in *.
  destruct Hd as ((Hj & Ht & Hfi & Hal & Her & Hs & Hbs & Hre & Hth
                   & Hhe & Hsi) & Hsta & Hrunning & Hwait & Hid).
  simpl in *.
  destruct (bool_decide (0 < interval (m_timer (jm w')))); mrun;
    (eexists; split; [reflexivity |]);
    (split; [by destruct Hc' |]);
    unfold counters_agree, threads_agree, finishedCount, jobCount,
      threadCount, isRunning, count in *; simpl;
    rewrite ?Hj, ?Hth, ?Hs;
    repeat split; try done; lia.
Qed.

#[local] Opaque startNext.

(** The loop of [addThreads()]. *)
Lemma addThreads_loop (n : nat) w :
  consistent w ->
  exists k w',
    repeatM n
      (threads ← gets m_vThreads;
       modify (set_vThreads (threads ++ [Thread.init])) ;;
       enqueueIdle (length threads) ;;
       st ← gets m_eStatus;
       if bool_decide (st = sRunning) then startNext else mret tt) w
    = Some (tt, w')
    /\ consistent w'
    /\ 0 <= k <= Z.of_nat n
    /\ k <= count (m_quWaiting (jm w))
    /\ length (m_vThreads (jm w')) = (length (m_vThreads (jm w)) + n)%nat
    /\ m_iStarted (jm w') = m_iStarted (jm w) + k
    /\ m_iRunning (jm w') = m_iRunning (jm w) + k
    /\ count (m_quIdle (jm w')) = count (m_quIdle (jm w)) + Z.of_nat n - k
    /\ count (m_quWaiting (jm w')) = count (m_quWaiting (jm w)) - k
    /\ m_iFinished (jm w') = m_iFinished (jm w)
    /\ m_eStatus (jm w') = m_eStatus (jm w)
    /\ m_vspJobs (jm w') = m_vspJobs (jm w)
    /\ signals (log w') = signals (log w)
    /\ (m_eStatus (jm w) <> sRunning ->
        w' = mkWorld (heap w)
               (set_quIdle
                  (m_quIdle (jm w) ++ seq (length (m_vThreads (jm w))) n)
                  (set_vThreads
                     (m_vThreads (jm w) ++ replicate n Thread.init) (jm w)))
               (log w)).
Proof.
  revert w. induction n as [|n IH]; intros w Hc.
  - exists 0, w. split; [done |]. split; [done |].
    split; [lia |]. split; [unfold count; lia |].
    repeat split; try done; try lia.
    intros _. destruct w as [h m l]; destruct m; simpl.
    by rewrite !app_nil_r.
  - set (w1 := mkWorld (heap w)
                 (set_quIdle (m_quIdle (jm w) ++ [length (m_vThreads (jm w))])
                    (set_vThreads (m_vThreads (jm w) ++ [Thread.init])
                       (jm w)))
                 (log w)).
    assert (Hc1 : consistent w1) by exact Hc.
    simpl repeatM. unfold enqueueIdle. mrun. fold w1.
    case_bool_decide as Hst.
    + destruct (startNext_spec w1 Hc1)
        as (k1 & w2 & Hsn & Hc2 & Hd & Hk1 & Hw1).
      { simpl. by destruct (m_quIdle (jm w)). }
      rewrite Hsn.
      destruct (IH w2 Hc2)
        as (k2 & w' & Hrun & Hc' & Hk2 & Hw2 & Hth & Hsta & Hru & Hid & Hwa
            & Hfi & Hs & Hjo & Hsi & _).
      destruct Hd as ((Hj1 & _ & Hfi1 & _ & _ & Hs1 & _ & _ & Hth1 & _ & Hsi1)
                      & Hsta1 & Hru1 & Hwa1 & Hid1).
      simpl in *.
      exists (k1 + k2), w'. split; [done |]. split; [done |].
      unfold count in *. rewrite !length_app in *. simpl in *.
      repeat split; try congruence; try lia.
    + destruct (IH w1 Hc1)
        as (k2 & w' & Hrun & Hc' & Hk2 & Hw2 & Hth & Hsta & Hru & Hid & Hwa
            & Hfi & Hs & Hjo & Hsi & Hidle).
      specialize (Hidle Hst). simpl in *.
      assert (k2 = 0) as ->.
      { rewrite Hidle in Hsta. simpl in Hsta. lia. }
      exists 0, w'. split; [done |]. split; [done |].
      unfold count in *. rewrite !length_app in *. simpl in *.
      repeat split; try congruence; try lia.
      intros _. rewrite Hidle. rewrite <- !app_assoc. simpl.
      by rewrite Nat.add_1_r.
Qed.

#[local] Transparent startNext.

(** X14.  [addThreads(iT)] is safe at any time.  On a consistent state it
    adds [iT] threads (none if [iT] is not positive) and starts at most
    one waiting job for each of them, and only while the manager runs;
    on a manager that does not run the new threads are idle, behind the
    others in the idle queue.  The state stays consistent and the two
    balances are kept. *)
Theorem addThreads_spec (iT : Z) w :
  consistent w ->
  exists k w',
    addThreads iT w = Some (tt, w')
    /\ consistent w'
    /\ threadCount (jm w') = threadCount (jm w) + Z.max 0 iT
    /\ 0 <= k <= Z.max 0 iT
    /\ k <= count (m_quWaiting (jm w))
    /\ m_iStarted (jm w') = m_iStarted (jm w) + k
    /\ jobCount (jm w') = jobCount (jm w)
    /\ finishedCount (jm w') = finishedCount (jm w)
    /\ signals (log w') = signals (log w)
    /\ (counters_agree w -> counters_agree w')
    /\ (threads_agree w -> threads_agree w')
    /\ (isRunning (jm w) = false ->
        k = 0
        /\ m_quIdle (jm w')
           = m_quIdle (jm w)
               ++ seq (length (m_vThreads (jm w))) (Z.to_nat iT)
        /\ m_vThreads (jm w')
           = m_vThreads (jm w) ++ replicate (Z.to_nat iT) Thread.init).
Proof.
  intros Hc. unfold addThreads.
  destruct (addThreads_loop (Z.to_nat iT) w Hc)
    as (k & w' & Hrun & Hc' & Hk & Hw & Hth & Hsta & Hru & Hid & Hwa & Hfi
        & Hs & Hjo & Hsi & Hidle).
  exists k, w'. split; [done |]. split; [done |].
  unfold threadCount, jobCount, finishedCount, counters_agree, threads_agree,
    isRunning, count in *.
  rewrite Hth, Hjo.
  split; [lia |]. split; [lia |]. split; [lia |].
  split; [done |]. split; [done |]. split; [done |]. split; [done |].
  split; [lia |]. split; [lia |].
  intros Hnot. apply bool_decide_eq_false in Hnot.
  specialize (Hidle Hnot). subst w'. simpl in *.
  repeat split; try done. lia.
Qed.

(** *** [setThreads()], [reportProgress()], [clear()] and [start()] *)

Lemma threadsRunning_replicate (n : nat) :
  filter (fun thr => Thread.isRunning thr = true) (replicate n Thread.init)
  = [].
Proof.
  induction n as [|n IH]; [done |]. simpl.
  rewrite filter_cons_False by done. exact IH.
Qed.

(** X15.  [setThreads()] is ignored while the manager runs.  Otherwise it
    replaces the threads: there are [iT] of them (none if [iT] is not
    positive), none runs or holds a job index, all are in the idle queue
    in order, and jobs and counters are untouched. *)
Theorem setThreads_spec (iT : Z) w :
  (m_eStatus (jm w) = sRunning -> setThreads iT w = Some (tt, w))
  /\ (m_eStatus (jm w) <> sRunning ->
      exists w',
        setThreads iT w = Some (tt, w')
        /\ threadCount (jm w') = Z.max 0 iT
        /\ m_quIdle (jm w') = seq 0 (Z.to_nat iT)
        /\ threadsRunningCount (jm w') = 0
        /\ Forall (fun thr => Thread.jobIndex thr = -1) (m_vThreads (jm w'))
        /\ jm w' = set_quIdle (m_quIdle (jm w'))
                     (set_vThreads (m_vThreads (jm w')) (jm w))
        /\ heap w' = heap w
        /\ log w' = log w).
Proof.
  split; intros Hst; unfold setThreads; mrun.
  - by rewrite bool_decide_eq_true_2.
  - rewrite bool_decide_eq_false_2 by done. mrun.
    eexists. split; [reflexivity |]. simpl.
    unfold threadCount, threadsRunningCount, count; simpl.
    rewrite length_replicate, threadsRunning_replicate.
    repeat split; try done; try lia.
    apply Forall_replicate. done.
Qed.

(** X16.  [reportProgress()] changes nothing in the manager.  With an
    empty job table it emits nothing (no division by zero); otherwise it
    emits one [signalProgress] with the quotient of the [int] product
    [100*m_iFinished] by the number of jobs.  As long as the number of
    handled jobs is between 0 and the number of jobs and there are at
    most 21474836 jobs, the product does not overflow and the value is
    [100 * finished / jobs], between 0 and 100. *)
Theorem reportProgress_spec w :
  exists w',
    reportProgress w = Some (tt, w')
    /\ jm w' = jm w
    /\ heap w' = heap w
    /\ (jobCount (jm w) = 0 -> log w' = log w)
    /\ (0 < jobCount (jm w) ->
        log w'
        = log w ++ [Emit (signalProgress
                            (Z.quot (int_mul 100 (finishedCount (jm w)))
                                    (jobCount (jm w))))]
        /\ (0 <= finishedCount (jm w) <= jobCount (jm w) ->
            jobCount (jm w) <= 21474836 ->
            int_mul 100 (finishedCount (jm w)) = 100 * finishedCount (jm w)
            /\ 0 <= Z.quot (100 * finishedCount (jm w)) (jobCount (jm w))
               <= 100)).
Proof.
  unfold reportProgress, jobCount, finishedCount. mrun.
  case_bool_decide as Hjobs; mrun.
  - rewrite int_div_positive by done.
    eexists. split; [reflexivity |]. simpl.
    split; [done |]. split; [done |]. split; [lia |].
    intros _. split; [done |]. intros Hfin Hsize. split.
    + unfold int_mul. apply wrap_in_range. unfold INT_MIN, INT_MAX. lia.
    + apply percent_bounds; lia.
  - exists w. repeat split; try done; lia.
Qed.

(** X17.  [clear()] followed by [start()].  On a manager that does not
    run this ends at once: [start()] returns true, the status is
    [sFinished], [signalFinished] is emitted, all four counters are 0,
    the job table is empty and the threads are as before.  On a running
    manager [clear()] still empties the job table and [start()] then
    returns false: the status stays [sRunning]. *)
Theorem clear_then_start w :
  (m_eStatus (jm w) <> sRunning ->
   exists w',
     (clear ;; start) w = Some (true, w')
     /\ m_eStatus (jm w') = sFinished
     /\ log w' = log w ++ [Emit signalFinished]
     /\ m_iStarted (jm w') = 0 /\ m_iRunning (jm w') = 0
     /\ m_iFinished (jm w') = 0 /\ m_iErrors (jm w') = 0
     /\ jobCount (jm w') = 0 /\ m_quWaiting (jm w') = []
     /\ isStopped (jm w') = false /\ m_eError (jm w') = jmeNoError
     /\ m_vThreads (jm w') = m_vThreads (jm w)
     /\ m_quIdle (jm w') = m_quIdle (jm w))
  /\ (m_eStatus (jm w) = sRunning ->
      exists w',
        (clear ;; start) w = Some (false, w')
        /\ m_eStatus (jm w') = sRunning
        /\ jobCount (jm w') = 0 /\ m_quWaiting (jm w') = []
        /\ m_iStarted (jm w') = 0 /\ m_iRunning (jm w') = 0
        /\ m_iFinished (jm w') = m_iFinished (jm w)
        /\ log w' = log w).
Proof.
  split; intros Hst; unfold clear, start; mrun.
  - rewrite bool_decide_eq_false_2 by done. mrun.
    eexists. split; [reflexivity |]. by repeat split.
  - rewrite bool_decide_eq_true_2 by done. mrun.
    eexists. split; [reflexivity |]. by repeat split.
Qed.

End JobManagerMore.

(** ** The signals of the manager *)

Section ManagerSignals.

Import JobManager.

Implicit Types (w : World) (P : Signal -> Prop).

Lemma emits_ret {A : Type} P (a : A) : emits_only P (mret a).
Proof.
  intros w a' w' Hrun. injection Hrun as <- <-.
  exists []. by rewrite app_nil_r.
Qed.

Lemma emits_bind {A B : Type} P (c : M A) (k : A -> M B) :
  emits_only P c ->
  (forall a, emits_only P (k a)) ->
  emits_only P (c ≫= k).
Proof.
  intros Hc Hk w b w' Hrun. unfold mbind, M_bind in Hrun.
  destruct (c w) as [[a w1]|] eqn:Hcw; [|done].
  destruct (Hc _ _ _ Hcw) as (s1 & Hl1 & Hs1).
  destruct (Hk a _ _ _ Hrun) as (s2 & Hl2 & Hs2).
  exists (s1 ++ s2). rewrite Hl2, Hl1, app_assoc. split; [done |].
  rewrite signals_app. by apply Forall_app.
Qed.

Lemma emits_weaken {A : Type} P (Q : Signal -> Prop) (c : M A) :
  (forall s, P s -> Q s) ->
  emits_only P c ->
  emits_only Q c.
Proof.
  intros HPQ Hc w a w' Hrun.
  destruct (Hc _ _ _ Hrun) as (sfx & Hl & Hs).
  exists sfx. split; [done |]. eapply Forall_impl; [exact Hs | exact HPQ].
Qed.

(** A computation that leaves the log alone. *)
Lemma emits_log_kept {A : Type} P (c : M A) :
  (forall w a w', c w = Some (a, w') -> log w' = log w) ->
  emits_only P c.
Proof.
  intros Hkeep w a w' Hrun. exists [].
  rewrite app_nil_r. split; [by eapply Hkeep | constructor].
Qed.

Lemma emits_gets {A : Type} P (f : Manager -> A) : emits_only P (gets f).
Proof. apply emits_log_kept. intros w a w' H. by injection H as <- <-. Qed.

Lemma emits_modify P (f : Manager -> Manager) : emits_only P (modify f).
Proof. apply emits_log_kept. intros w a w' H. by injection H as <- <-. Qed.

Lemma emits_lift {A : Type} P (o : option A) : emits_only P (lift o).
Proof.
  apply emits_log_kept. intros w a w' H. unfold lift in H.
  destruct o; [|done]. by injection H as <- <-.
Qed.

Lemma emits_fail {A : Type} P : emits_only P (@fail A).
Proof. intros w a w' H. done. Qed.

Lemma emits_deref P (p : nat) : emits_only P (deref p).
Proof.
  apply emits_log_kept. intros w a w' H. unfold deref in H.
  destruct (heap w !! p); [|done]. by injection H as <- <-.
Qed.

Lemma emits_store P (p : nat) (j : AbstractJob.t) : emits_only P (store p j).
Proof. apply emits_log_kept. intros w a w' H. by injection H as <- <-. Qed.

Lemma emits_alloc P (j : AbstractJob.t) : emits_only P (alloc j).
Proof. apply emits_log_kept. intros w a w' H. by injection H as <- <-. Qed.

Lemma emits_getHeap P : emits_only P getHeap.
Proof. apply emits_log_kept. intros w a w' H. by injection H as <- <-. Qed.

(** Recording a call or the start of a thread emits no signal. *)
Lemma emits_record P (e : Event) :
  signals [e] = [] -> emits_only P (record e).
Proof.
  intros He w a w' Hrun. injection Hrun as <- <-.
  exists [e]. split; [done |]. rewrite He. constructor.
Qed.

Lemma emits_emit P (s : Signal) : P s -> emits_only P (emit s).
Proof.
  intros Hs w a w' Hrun. injection Hrun as <- <-.
  exists [Emit s]. split; [done |]. by repeat constructor.
Qed.

Lemma emits_repeatM P (n : nat) (c : M unit) :
  emits_only P c -> emits_only P (repeatM n c).
Proof.
  intros Hc. induction n as [|n IH]; simpl.
  - apply emits_ret.
  - apply emits_bind; [done | by intros _].
Qed.

(** Break a computation into its steps. *)
Ltac emits_steps :=
  repeat first
    [ apply emits_ret | apply emits_gets | apply emits_modify
    | apply emits_lift | apply emits_fail | apply emits_deref
    | apply emits_store | apply emits_alloc | apply emits_getHeap
    | apply emits_record; reflexivity
    | apply emits_bind; [|intros ?]
    | match goal with
      | |- emits_only _ (if ?b then _ else _) => destruct b
      | |- emits_only _ (match ?x with _ => _ end) => destruct x
      | |- emits_only _ (let '(_, _) := ?x in _) => destruct x
      end ].

Lemma startNext_loop_silent (n : nat) (tid : nat) :
  emits_only no_signal (startNext_loop n tid).
Proof.
  induction n as [|n IH]; simpl.
  - apply emits_ret.
  - unfold frontWaiting, jobAt, callCanStart, dequeueWaiting,
      enqueueWaiting, threadStart.
    emits_steps. exact IH.
Qed.

(** [startNext()] emits no signal. *)
Lemma startNext_silent : emits_only no_signal startNext.
Proof.
  unfold startNext, dequeueIdle, enqueueIdle.
  emits_steps. apply startNext_loop_silent.
Qed.

Lemma handleError_emits : emits_only dispatch_signal handleError.
Proof.
  unfold handleError. emits_steps. by apply emits_emit.
Qed.

(** [checkNext()] emits [signalError], [signalStopped] and
    [signalProgress] only. *)
Lemma checkNext_emits : emits_only dispatch_signal checkNext.
Proof.
  unfold checkNext. emits_steps; try (by apply emits_emit).
  eapply emits_weaken; [|apply startNext_loop_silent]. by intros s [].
Qed.

Lemma drainSpawned_silent (fuel : nat) (p : nat) :
  emits_only no_signal (drainSpawned fuel p).
Proof.
  induction fuel as [|fuel IH]; simpl.
  - apply emits_fail.
  - unfold appendJobUnsafe. emits_steps. exact IH.
Qed.

Lemma no_signal_nil (l : list Signal) : Forall no_signal l -> l = [].
Proof. destruct 1 as [|s l Hs _]; [done | destruct Hs]. Qed.

Ltac mrun :=
  repeat (progress (unfold mbind, M_bind, mret, M_ret, gets, modify, lift,
                      deref, store, record, emit, getHeap, alloc, fail;
                    simpl)).

#[local] Opaque drainSpawned checkNext.

(** The signals of one run of [handleJobFinished()], in order. *)
Lemma handleJobFinished_log (sender : nat) w (thr : Thread.t) (p : nat) :
  consistent w ->
  m_vThreads (jm w) !! sender = Some thr ->
  at_ (m_vspJobs (jm w)) (Thread.jobIndex thr) = Some p ->
  exists w' (sfx : list Event) (mid : list Signal),
    handleJobFinished sender w = Some (tt, w')
    /\ log w' = log w ++ sfx
    /\ signals sfx
       = (if m_bReportJobFinish (jm w) then [signalJobFinished p] else [])
           ++ mid
           ++ (if isFinished (jm w') then [signalFinished] else [])
    /\ Forall dispatch_signal mid.
Proof.
  intros Hc Hthr Hat.
  assert (Hp : (p < length (heap w))%nat).
  { destruct Hc as [_ Hjobs]. rewrite Forall_forall in Hjobs.
    apply Hjobs. by eapply at_elem_of. }
  destruct (lookup_lt_is_Some_2 _ _ Hp) as [j Hj].
  set (l := AbstractJob.spawned j).
  set (w0 := mkWorld (heap w) (set_iFinished (m_iFinished (jm w) + 1) (jm w))
                     (log w)).
  pose proof (drainSpawned_spec p l w0 j Hj eq_refl) as Hdrain.
  match type of Hdrain with _ = Some (tt, ?x) => set (w1 := x) in * end.
  destruct (drainSpawned_silent _ _ _ _ _ Hdrain) as (s1 & Hl1 & Hs1).
  apply no_signal_nil in Hs1.
  set (j1 := AbstractJob.with_spawned [] j).
  assert (Hj1 : heap w1 !! p = Some j1).
  { simpl. rewrite lookup_app_l by by rewrite length_insert.
    by apply list_lookup_insert_eq. }
  set (j2 := AbstractJob.with_data
               (AbstractJob.v_cleanup j1 (AbstractJob.data j1)) j1).
  set (w2 := mkWorld (<[p := j2]> (heap w1)) (jm w1)
                     (log w1 ++ [CallCleanup p])).
  assert (Hclean : callCleanup p w1 = Some (tt, w2)).
  { unfold callCleanup. unfold mbind at 1, M_bind, deref.
    by rewrite Hj1. }
  assert (Hj2 : heap w2 !! p = Some j2).
  { apply list_lookup_insert_eq. by eapply lookup_lt_Some. }
  assert (Hc2 : consistent w2).
  { destruct Hc as [Hwait Hjobs]. split; simpl.
    - apply Forall_app. split.
      + eapply Forall_impl; [exact Hwait |]. intros i Hi; simpl in Hi.
        unfold count in *. rewrite length_app. lia.
      + apply Forall_fmap, Forall_forall. intros i Hi.
        apply elem_of_seq in Hi. simpl.
        unfold count. rewrite length_app, length_seq. lia.
    - rewrite length_insert, length_app, length_insert, length_fmap.
      apply Forall_app. split.
      + eapply Forall_impl; [exact Hjobs |]. intros q Hq; simpl in Hq. lia.
      + apply Forall_forall. intros q Hq. apply elem_of_seq in Hq. lia. }
  assert (Hre : m_bReportJobFinish (jm w2) = m_bReportJobFinish (jm w))
    by done.
  assert (Hl2 : log w2 = log w ++ s1 ++ [CallCleanup p]).
  { change (log w2) with (log w1 ++ [CallCleanup p]).
    rewrite Hl1. by rewrite <- app_assoc. }
  unfold handleJobFinished.
  erewrite (bind_some (modify _)); [|reflexivity].
  erewrite (bind_some (gets _)); [|reflexivity].
  erewrite (bind_some (lift _)); [|by unfold lift; simpl; rewrite Hthr].
  erewrite (bind_some (jobAt _));
    [|by unfold jobAt, mbind, M_bind, gets, lift; simpl; rewrite Hat].
  erewrite (bind_some (deref _)); [|by unfold deref; simpl; rewrite Hj].
  erewrite (bind_some (drainSpawned _ _)); [|exact Hdrain].
  erewrite (bind_some (callCleanup _)); [|exact Hclean].
  clearbody w2. clear Hdrain Hclean Hj1 Hl1. clearbody w1.
  erewrite (bind_some (enqueueIdle _)); [|reflexivity].
  erewrite (bind_some (modify _)); [|reflexivity].
  erewrite (bind_some (callIsError _));
    [|by unfold callIsError, mbind, M_bind, deref, mret, M_ret; simpl;
         rewrite Hj2].
  assert (Hidle : forall n : nat,
             n = Z.to_nat (qMax 1 (qMin (count (m_quWaiting (jm w2)))
                                        (count (m_quIdle (jm w2) ++ [sender]))))
             -> (n <= length (m_quIdle (jm w2) ++ [sender]))%nat).
  { intros n ->. unfold qMax, qMin, count. rewrite length_app; simpl.
    repeat case_bool_decide; lia. }
  rewrite <- Hre.
  destruct (AbstractJob.isError (AbstractJob.data j2));
    destruct (m_bReportJobFinish (jm w2)) eqn:Hrep;
    mrun; rewrite ?Hrep; mrun;
    match goal with
    | |- context [repeatM ?n checkNext ?w3] =>
        destruct (repeat_checkNext_step n w3)
          as (k & w4 & Hrun & _); [exact Hc2 | by apply Hidle |]
    end;
    rewrite Hrun;
    destruct (emits_repeatM _ _ _ checkNext_emits _ _ _ Hrun)
      as (s4 & Hl4 & Hs4);
    simpl in Hl4; unfold isFinished;
    (destruct (bool_decide (m_eStatus (jm w4) = sFinished)) eqn:Hfin;
     (eexists _, _, (signals s4); split; [reflexivity |]; simpl;
      rewrite Hfin, Hl4, Hl2; split;
      [rewrite <- !app_assoc; reflexivity |];
      split; [|exact Hs4];
      rewrite !signals_app, Hs1; simpl; by rewrite ?app_nil_r)).
Qed.

#[local] Transparent drainSpawned checkNext.

(** X18.  The signals of a completion tick come in a fixed order: first
    [signalJobFinished] for the job that ended, if and only if reporting
    is switched on; then what the dispatch steps emit, which is
    [signalError], [signalStopped] or [signalProgress]; last
    [signalFinished], once, if and only if the status is [sFinished] at
    the end of the tick. *)
Theorem tick_signals_in_order (sender : nat) w (thr : Thread.t) (p : nat) :
  consistent w ->
  m_vThreads (jm w) !! sender = Some thr ->
  at_ (m_vspJobs (jm w)) (Thread.jobIndex thr) = Some p ->
  exists w' (mid : list Signal),
    handleJobFinished sender w = Some (tt, w')
    /\ signals (log w')
       = signals (log w)
           ++ (if isReportJobFinish (jm w) then [signalJobFinished p] else [])
           ++ mid
           ++ (if isFinished (jm w') then [signalFinished] else [])
    /\ Forall dispatch_signal mid.
Proof.
  intros Hc Hthr Hat.
  destruct (handleJobFinished_log sender w thr p Hc Hthr Hat)
    as (w' & sfx & mid & Hrun & Hlog & Hsig & Hmid).
  exists w', mid. split; [done |]. split; [|done].
  by rewrite Hlog, signals_app, Hsig.
Qed.

(** What [start()] emits: [signalFinished] when it returns true on an
    empty job table, nothing otherwise. *)
Lemma start_signals w (b : bool) w' :
  start w = Some (b, w') ->
  exists sfx : list Event,
    log w' = log w ++ sfx
    /\ signals sfx
       = if b && bool_decide (m_vspJobs (jm w) = [])
         then [signalFinished] else [].
Proof.
  unfold start. mrun. case_bool_decide as Hst; mrun.
  - intros [= <- <-]. exists []. by rewrite app_nil_r.
  - destruct (m_vspJobs (jm w)) as [|p jobs] eqn:Hjobs; mrun.
    + intros [= <- <-]. by exists [Emit signalFinished].
    + rewrite andb_false_r.
      match goal with
      | |- context [repeatM ?n startNext ?w1] =>
          destruct (repeatM n startNext w1) as [[[] w2]|] eqn:Hrep;
            [|discriminate];
          destruct (emits_repeatM _ n _ startNext_silent _ _ _ Hrep)
            as (sfx & Hlog & Hsig)
      end.
      apply no_signal_nil in Hsig. simpl in Hlog.
      destruct (bool_decide (0 < interval (m_timer (jm w2)))); mrun;
        intros [= <- <-]; exists sfx; by rewrite Hsig.
Qed.

End ManagerSignals.

(** ** AbstractSessionManager *)

Section SessionManagerMore.

Import AbstractSessionManager.

Variable vt : Virtuals.

Implicit Types (s : Session).

Ltac smrun :=
  repeat (progress (unfold mbind, SM_bind, mret, SM_ret, gets, modify, emit;
                    simpl)).

(** X19.  [start()] on a session manager that is running or paused does
    nothing and returns false.  With no session to process it returns true
    and emits [signalFinished] at once, with the state [sFinished]; the
    session index, the count of finished jobs, the timers and the job
    manager are as they were. *)
Theorem start_refused_or_empty s :
  (isRunning s = true -> start vt s = Some (false, s))
  /\ (isRunning s = false ->
      sessionCount vt = 0 ->
      exists s',
        start vt s = Some (true, s')
        /\ m_eStatus s' = sFinished
        /\ out s' = out s ++ [signalFinished]
        /\ m_iSessionIndex s' = m_iSessionIndex s
        /\ m_iFinished s' = m_iFinished s
        /\ pending s' = pending s
        /\ m_jm s' = m_jm s).
Proof.
  split.
  - intros Hrun. unfold start. smrun. by rewrite Hrun.
  - intros Hrun Hzero. unfold start. smrun. rewrite Hrun.
    rewrite bool_decide_eq_true_2 by done. smrun.
    eexists. split; [reflexivity |]. by simpl.
Qed.

(** X20.  Once the stop flag of the job manager is set, [start()] of the
    session manager starts nothing: it returns false, emits
    [signalStopped 0], and leaves the state [sStopped], the index -1 and
    the job manager untouched, so that the next [start()] does the
    same. *)
Theorem start_after_stop_is_refused s :
  isRunning s = false ->
  sessionCount vt <> 0 ->
  JobManager.isStopped (JobManager.jm (m_jm s)) = true ->
  exists s',
    start vt s = Some (false, s')
    /\ m_eStatus s' = sStopped
    /\ out s' = out s ++ [signalStopped 0]
    /\ m_iSessionIndex s' = -1
    /\ m_jm s' = m_jm s
    /\ isRunning s' = false.
Proof.
  intros Hrun Hcount Hstop. unfold start. smrun. rewrite Hrun.
  rewrite bool_decide_eq_false_2 by done. smrun.
  unfold startNextSession, handleStopped. smrun. rewrite Hstop. smrun.
  eexists. split; [reflexivity |]. by simpl.
Qed.

(** X21.  When the job manager reports completion while the session
    manager is not in the state [sRunning], the session manager emits
    [signalError] with the current index and [jmeImplementationError] and
    enters [sError]; it neither advances the index nor sets a timer nor
    emits [signalSessionFinished]. *)
Theorem handleFinished_outside_running s :
  m_eStatus s <> sRunning ->
  exists s',
    handleFinished vt s = Some (tt, s')
    /\ m_eStatus s' = sError
    /\ out s' = out s ++ [signalError (m_iSessionIndex s)
                                      jmeImplementationError]
    /\ m_iSessionIndex s' = m_iSessionIndex s
    /\ pending s' = pending s
    /\ m_jm s' = m_jm s.
Proof.
  intros Hst. unfold handleFinished. smrun.
  rewrite bool_decide_eq_false_2 by done. smrun.
  eexists. split; [reflexivity |]. by simpl.
Qed.

(** X22.  [stop()] between two sessions does not cancel the timer set for
    the next session.  The job manager is not running then, so [stop()]
    only emits [signalStopped] and sets the state [sStopped] and the
    index -1; the stop flag of the job manager stays clear.  When the
    timer fires, [startNextSession()] therefore initialises a session for
    the index -1 and starts the job manager.  For an [initNextSession()]
    that emits nothing and a [start()] that returns true: if the session
    has jobs, the state is [sRunning] again, with the index -1; if it has
    none, [start()] reports completion at once, [handleFinished()] runs
    and leaves the index 0 and the state [sPaused] with a new timer (or
    [sFinished] with [signalFinished], when [sessionCount()] is not
    positive).  In either case the session manager does not stay
    stopped. *)
Theorem stop_between_sessions_keeps_timer s (delay : Z) (rest : list Z)
    (wc wi w' : JobManager.World) :
  pending s = delay :: rest ->
  JobManager.isRunning (JobManager.jm (m_jm s)) = false ->
  JobManager.isStopped (JobManager.jm (m_jm s)) = false ->
  (JobManager.clear ;;
   JobManager.setAllowedErrors (allowedErrors vt (-1))) (m_jm s)
  = Some (tt, wc) ->
  initNextSession vt (-1) wc = Some (tt, wi) ->
  JobManager.signals (drop (length (JobManager.log wc))
                           (JobManager.log wi)) = [] ->
  JobManager.start wi = Some (true, w') ->
  exists s1 s2,
    stop vt s = Some (tt, s1)
    /\ m_eStatus s1 = sStopped
    /\ out s1 = out s ++ [signalStopped (m_iSessionIndex s)]
    /\ pending s1 = pending s
    /\ m_jm s1 = m_jm s
    /\ fireTimer vt s1 = Some (tt, s2)
    /\ m_jm s2 = w'
    /\ m_eStatus s2 <> sStopped
    /\ (JobManager.m_vspJobs (JobManager.jm wi) <> [] ->
        m_eStatus s2 = sRunning
        /\ m_iSessionIndex s2 = -1
        /\ out s2 = out s1
        /\ pending s2 = rest)
    /\ (JobManager.m_vspJobs (JobManager.jm wi) = [] ->
        m_iSessionIndex s2 = 0
        /\ m_eStatus s2
           = (if bool_decide (0 < sessionCount vt) then sPaused
              else sFinished)
        /\ out s2
           = out s1 ++ signalSessionFinished (-1)
               :: (if bool_decide (0 < sessionCount vt) then []
                   else [signalFinished])
        /\ pending s2
           = rest ++ (if bool_decide (0 < sessionCount vt)
                      then [m_iSessionTimeout s] else [])).
Proof.
  intros Hpending Hrun Hstop Hclear Hinit Hsig1 Hstart.
  destruct (start_signals wi true w' Hstart) as (sfx & Hlog & Hsfx).
  injection Hclear as Hclear. simpl in Hclear.
  assert (Hfire : forall s1,
            pending s1 = delay :: rest ->
            m_jm s1 = m_jm s ->
            m_iSessionIndex s1 = -1 ->
            fireTimer vt s1
            = (modify (set_eStatus sRunning) ;;
               deliver vt (JobManager.signals sfx) ;;
               mret tt)
                (set_jm w' (set_pending rest s1))).
  { intros s1 Hp1 Hjm1 Hidx1.
    unfold fireTimer. smrun. rewrite Hp1. smrun.
    unfold startNextSession. smrun. rewrite Hjm1, Hstop.
    erewrite (onManager_silent vt JobManager.clear);
      [|reflexivity | simpl; by rewrite drop_all].
    erewrite (onManager_silent vt (JobManager.setAllowedErrors _));
      [|reflexivity | simpl; by rewrite drop_all].
    simpl. rewrite Hjm1, Hidx1, Hclear.
    erewrite (onManager_silent vt (initNextSession vt _));
      [|exact Hinit | exact Hsig1].
    unfold onManager. simpl. rewrite Hstart, Hlog, drop_app_length.
    destruct (deliver vt (JobManager.signals sfx) _) as [[[] s2]|];
      reflexivity. }
  set (s1 := set_iSessionIndex (-1)
               (set_out (out s ++ [signalStopped (m_iSessionIndex s)])
                  (set_eStatus sStopped s))).
  assert (Hs1 : stop vt s = Some (tt, s1)).
  { unfold stop, handleStopped. smrun. by rewrite Hrun. }
  specialize (Hfire s1 Hpending eq_refl eq_refl).
  rewrite Hsfx in Hfire. simpl in Hfire.
  destruct (JobManager.m_vspJobs (JobManager.jm wi)) as [|p jobs].
  - simpl in Hfire. unfold handleFinished in Hfire.
    revert Hfire. smrun. change (-1 + 1) with 0.
    destruct (bool_decide (0 < sessionCount vt)) eqn:Hcount; smrun;
      intros Hfire; exists s1; eexists;
      (split; [exact Hs1 |]); (do 4 (split; [done |]));
      (split; [exact Hfire |]); simpl;
      (split; [done |]); (split; [done |]); (split; [done |]);
      intros _; rewrite <- ?app_assoc, ?app_nil_r; by repeat split.
  - revert Hfire. smrun. intros Hfire. exists s1. eexists.
    split; [exact Hs1 |]. do 4 (split; [done |]).
    split; [exact Hfire |]. simpl.
    split; [done |]. split; [done |]. split; [by repeat split | done].
Qed.

(** X23.  While a session runs, with at most 21474836 sessions (so that
    [100*m_iSessionIndex + 100] is an [int]), the overall progress the
    session manager reports for a progress of the job manager between 0
    and 100 is [(100*index + progress) / sessionCount()]; it lies between
    0 and 100 and is 100 exactly when the last session reports 100.  With
    [sessionCount()] equal to 0 the slot divides by zero. *)
Theorem handleProgress_bounds s (iPer : Z) :
  (0 <= m_iSessionIndex s < sessionCount vt ->
   sessionCount vt <= 21474836 ->
   0 <= iPer <= 100 ->
   exists v,
     handleProgress vt iPer s
     = Some (tt, set_out (out s ++ [signalProgress v]) s)
     /\ v = Z.quot (100 * m_iSessionIndex s + iPer) (sessionCount vt)
     /\ 0 <= v <= 100
     /\ (v = 100 <-> m_iSessionIndex s = sessionCount vt - 1 /\ iPer = 100))
  /\ (sessionCount vt = 0 -> handleProgress vt iPer s = None).
Proof.
  split.
  - intros Hidx Hsize Hper.
    destruct (int_percent (m_iSessionIndex s) iPer (sessionCount vt)
                Hidx Hsize Hper) as (_ & Hdiv & Hb).
    unfold handleProgress. smrun. unfold lift. rewrite Hdiv.
    eexists. split; [reflexivity |]. split; [reflexivity |].
    split; [exact Hb |].
    set (n := sessionCount vt) in *. set (i := m_iSessionIndex s) in *.
    rewrite Z.quot_div_nonneg by lia. split.
    + intros Hv.
      pose proof (Z.mul_div_le (100 * i + iPer) n ltac:(lia)) as Hm.
      rewrite Hv in Hm. nia.
    + intros [-> ->]. replace (100 * (n - 1) + 100) with (100 * n) by lia.
      apply Z.div_mul. lia.
  - intros Hzero. unfold handleProgress. smrun. unfold lift.
    by rewrite Hzero.
Qed.

(** With a positive [sessionCount()] the slots never fail; they do not
    touch the job manager, and only [handleJobFinished()] counts. *)
Lemma slot_spec (x : JobManager.Signal) s :
  0 < sessionCount vt ->
  exists s',
    slot vt x s = Some (tt, s')
    /\ m_jm s' = m_jm s
    /\ m_iFinished s'
       = m_iFinished s
         + match x with JobManager.signalJobFinished _ => 1 | _ => 0 end.
Proof.
  intros Hcount.
  destruct x; simpl;
    unfold handleFinished, handleError, handleStopped, handleProgress,
      handleJobFinished; smrun.
  - destruct (bool_decide (m_eStatus s = sRunning)); smrun.
    + case_bool_decide; smrun; eexists; (split; [reflexivity |]); simpl;
        split; [done | lia | done | lia].
    + eexists; (split; [reflexivity |]); simpl; split; [done | lia].
  - eexists; (split; [reflexivity |]); simpl; split; [done | lia].
  - eexists; (split; [reflexivity |]); simpl; split; [done | lia].
  - eexists; (split; [reflexivity |]); simpl; split; [done | lia].
  - unfold lift. rewrite int_div_positive by done.
    eexists; (split; [reflexivity |]); simpl; split; [done | lia].
Qed.

Lemma deliver_keeps (l : list JobManager.Signal) s :
  0 < sessionCount vt ->
  Forall (fun x => forall p, x <> JobManager.signalJobFinished p) l ->
  exists s',
    deliver vt l s = Some (tt, s')
    /\ m_jm s' = m_jm s
    /\ m_iFinished s' = m_iFinished s.
Proof.
  intros Hcount Hl. revert s. induction Hl as [|x l Hx _ IH]; intros s; simpl.
  - by exists s.
  - destruct (slot_spec x s Hcount) as (s1 & Hslot & Hjm1 & Hfin1).
    destruct (IH s1) as (s' & Hrest & Hjm & Hfin).
    exists s'. unfold mbind, SM_bind. rewrite Hslot.
    split; [exact Hrest |]. split; [congruence |].
    rewrite Hfin, Hfin1.
    destruct x as [|q|e| |i]; try lia. by destruct (Hx q).
Qed.

(** X24.  When a worker thread ends, the session manager counts the job.
    With a positive [sessionCount()] (the tick may emit [signalProgress],
    and [handleProgress()] divides by [sessionCount()]) the slots do not
    fail, and [finishedJobs()] grows by exactly one if the job manager
    reports finished jobs, as the constructor sets it up, and stays as it
    is otherwise, whatever else the tick emits; the job manager is in the
    state its own handler leaves. *)
Theorem workerFinished_counts_job s (tid : nat) (thr : Thread.t) (p : nat) :
  0 < sessionCount vt ->
  consistent (m_jm s) ->
  JobManager.m_vThreads (JobManager.jm (m_jm s)) !! tid = Some thr ->
  at_ (JobManager.m_vspJobs (JobManager.jm (m_jm s))) (Thread.jobIndex thr)
  = Some p ->
  exists s',
    workerFinished vt tid s = Some (tt, s')
    /\ JobManager.handleJobFinished tid (m_jm s) = Some (tt, m_jm s')
    /\ finishedJobs s'
       = finishedJobs s
         + (if JobManager.isReportJobFinish (JobManager.jm (m_jm s))
            then 1 else 0).
Proof.
  intros Hcount Hc Hthr Hat.
  destruct (handleJobFinished_log tid (m_jm s) thr p Hc Hthr Hat)
    as (w' & sfx & mid & Hrun & Hlog & Hsig & Hmid).
  unfold workerFinished, onManager. rewrite Hrun, Hlog, drop_app_length, Hsig.
  assert (Htail : Forall (fun x => forall q, x <> JobManager.signalJobFinished q)
                         (mid ++ (if JobManager.isFinished (JobManager.jm w')
                                  then [JobManager.signalFinished] else []))).
  { apply Forall_app. split.
    - eapply Forall_impl; [exact Hmid |]. intros x Hx q ->. exact Hx.
    - destruct (JobManager.isFinished _); repeat constructor. done. }
  unfold JobManager.isReportJobFinish, finishedJobs.
  destruct (JobManager.m_bReportJobFinish (JobManager.jm (m_jm s))); simpl.
  - unfold mbind, SM_bind, handleJobFinished, modify.
    match goal with
    | |- context [deliver vt ?l ?s0] =>
        destruct (deliver_keeps l s0 Hcount Htail) as (s' & Hd & Hjm & Hfin)
    end.
    rewrite Hd. exists s'. split; [done |]. split; [by rewrite Hjm |].
    by rewrite Hfin.
  - match goal with
    | |- context [deliver vt ?l ?s0] =>
        destruct (deliver_keeps l s0 Hcount Htail) as (s' & Hd & Hjm & Hfin)
    end.
    rewrite Hd. exists s'. split; [done |]. split; [by rewrite Hjm |].
    rewrite Hfin. simpl. lia.
Qed.

End SessionManagerMore.

(** * Instances of the further properties *)

Section JobQueueInstances.

Import JobQueue.

(** [queue_runs_all] on a queue of three jobs that succeed. *)
Lemma queue_runs_all_witness :
  m_iCurrent (fst (exec Scenario.never Scenario.queue_ok)) = 3
  /\ snd (exec Scenario.never Scenario.queue_ok) = [AbstractJob.signalFinished].
Proof.
  destruct (queue_runs_all Scenario.never Scenario.queue_ok)
    as (_ & Hcur & _ & Hsig).
  - repeat constructor; unfold fails; simpl; lia.
  - reflexivity.
  - split; [exact Hcur | exact Hsig].
Defined.

(** [queue_stops_at_first_error] on a queue whose second job fails: the
    third job is as it was appended. *)
Lemma queue_stops_at_first_error_witness :
  m_vJobs (fst (exec Scenario.never Scenario.queue_failing))
  = [ran Scenario.ok; ran Scenario.failing; Scenario.ok]
  /\ m_iCurrent (fst (exec Scenario.never Scenario.queue_failing)) = 2
  /\ snd (exec Scenario.never Scenario.queue_failing)
     = [AbstractJob.signalError].
Proof.
  destruct (queue_stops_at_first_error Scenario.never Scenario.queue_failing
              [Scenario.ok] [Scenario.ok] Scenario.failing)
    as (Hjobs & Hcur & _ & Hsig).
  - reflexivity.
  - repeat constructor; unfold fails; simpl; lia.
  - unfold fails; simpl; lia.
  - reflexivity.
  - split; [exact Hjobs |]. split; [exact Hcur | exact Hsig].
Defined.

(** [queue_stop_between_jobs] on a queue of three jobs with a [stop()]
    before the second one. *)
Lemma queue_stop_between_jobs_witness :
  m_iCurrent (fst (exec Scenario.before_job_1 Scenario.queue_ok)) = 1
  /\ snd (exec Scenario.before_job_1 Scenario.queue_ok)
     = [AbstractJob.signalStopped].
Proof.
  destruct (queue_stop_between_jobs Scenario.before_job_1 Scenario.queue_ok
              [Scenario.ok] [Scenario.ok] Scenario.ok)
    as (_ & Hcur & _ & _ & Hsig).
  - reflexivity.
  - repeat constructor; unfold fails; simpl; lia.
  - intros i Hi. unfold Scenario.before_job_1.
    apply bool_decide_eq_false_2. unfold count in Hi; simpl in Hi. lia.
  - reflexivity.
  - split; [exact Hcur | exact Hsig].
Defined.

(** [queue_progress_bounds] for jobs that report the progress of
    [AbstractJob::progress()], on a queue of three jobs stopped before
    its second job: the index of the current job is 1 and the progress is
    [(100*1 + 0)/3]. *)
Lemma queue_progress_bounds_witness :
  0 <= progress (fun j => AbstractJob.progress (AbstractJob.data j))
                (fst (exec Scenario.before_job_1 Scenario.queue_ok)) <= 100
  /\ progress (fun j => AbstractJob.progress (AbstractJob.data j))
              (fst (exec Scenario.before_job_1 Scenario.queue_ok)) = 33.
Proof.
  destruct (queue_progress_bounds
              (fun j => AbstractJob.progress (AbstractJob.data j))
              (fst (exec Scenario.before_job_1 Scenario.queue_ok)))
    as (Hb & _ & _ & _ & Hval).
  - intros j. unfold AbstractJob.progress.
    destruct (AbstractJob.m_bFinished _); simpl; lia.
  - vm_compute. discriminate.
  - split; [exact Hb |].
    rewrite (Hval Scenario.ok); [reflexivity | reflexivity | reflexivity].
Defined.

End JobQueueInstances.

Section JobManagerInstances.

Import JobManager.

Lemma spawning_run_consistent :
  consistent (Scenario.after Scenario.spawning_run (Scenario.fresh 1)).
Proof.
  split; vm_compute; repeat constructor; intros; discriminate.
Defined.

(** [startNext_fifo] on a manager with two idle threads and three waiting
    jobs, none started. *)
Lemma startNext_fifo_witness :
  exists w',
    startNext (Scenario.after Scenario.three_jobs (Scenario.fresh 2))
    = Some (tt, w')
    /\ m_vspJobs (jm w') = [0; 1; 2]%nat.
Proof.
  destruct (startNext_fifo
              (Scenario.after Scenario.three_jobs (Scenario.fresh 2))
              0%nat [1%nat])
    as (w' & Hrun & Hjobs & _).
  - exact three_jobs_consistent.
  - reflexivity.
  - exists w'. split; [exact Hrun |]. rewrite Hjobs. reflexivity.
Defined.

(** [handleJobFinished_keeps_invariants] on a manager with one thread
    whose job spawned two jobs: the table has three jobs afterwards. *)
Lemma handleJobFinished_keeps_invariants_witness :
  exists w',
    handleJobFinished 0%nat
      (Scenario.after Scenario.spawning_run (Scenario.fresh 1))
    = Some (tt, w')
    /\ consistent w'
    /\ finishedCount (jm w') = 1.
Proof.
  destruct (handleJobFinished_keeps_invariants 0%nat
              (Scenario.after Scenario.spawning_run (Scenario.fresh 1))
              (Thread.mk 0 (Some 0%nat) false) 0%nat)
    as (j & w' & _ & Hrun & Hc & Hfin & _).
  - exact spawning_run_consistent.
  - reflexivity.
  - reflexivity.
  - exists w'. split; [exact Hrun |]. split; [exact Hc |].
    rewrite Hfin. reflexivity.
Defined.

(** [start_sets_up_invariants] on a manager with two idle threads and
    three jobs. *)
Lemma start_sets_up_invariants_witness :
  exists w',
    start (Scenario.after Scenario.three_jobs (Scenario.fresh 2))
    = Some (true, w')
    /\ counters_agree w'
    /\ threads_agree w'.
Proof.
  destruct (start_sets_up_invariants
              (Scenario.after Scenario.three_jobs (Scenario.fresh 2)))
    as (w' & Hrun & _ & Hca & Hta & _).
  - by vm_compute.
  - by vm_compute.
  - exact three_jobs_consistent.
  - reflexivity.
  - exists w'. split; [exact Hrun |]. split; [exact Hca | exact Hta].
Defined.

(** [addThreads_spec] on a manager with two threads that does not run:
    a third thread is added and no job is started. *)
Lemma addThreads_spec_witness :
  exists w',
    addThreads 1 (Scenario.after Scenario.three_jobs (Scenario.fresh 2))
    = Some (tt, w')
    /\ threadCount (jm w') = 3
    /\ m_quIdle (jm w') = [0; 1; 2]%nat.
Proof.
  destruct (addThreads_spec 1
              (Scenario.after Scenario.three_jobs (Scenario.fresh 2))
              three_jobs_consistent)
    as (k & w' & Hrun & _ & Hthr & _ & _ & _ & _ & _ & _ & _ & _ & Hidle).
  destruct Hidle as (_ & Hidle & _); [reflexivity |].
  exists w'. split; [exact Hrun |]. split.
  - rewrite Hthr. reflexivity.
  - rewrite Hidle. reflexivity.
Defined.

(** [setThreads_spec]: ignored on a manager with two running jobs; on a
    manager that does not run, three threads replace the two. *)
Lemma setThreads_spec_witness :
  setThreads 3 (Scenario.after Scenario.two_running (Scenario.fresh 2))
  = Some (tt, Scenario.after Scenario.two_running (Scenario.fresh 2))
  /\ exists w',
       setThreads 3 (Scenario.after Scenario.three_jobs (Scenario.fresh 2))
       = Some (tt, w')
       /\ threadCount (jm w') = 3.
Proof.
  split.
  - destruct (setThreads_spec 3
                (Scenario.after Scenario.two_running (Scenario.fresh 2)))
      as (Hrunning & _).
    apply Hrunning. reflexivity.
  - destruct (setThreads_spec 3
                (Scenario.after Scenario.three_jobs (Scenario.fresh 2)))
      as (_ & Hidle).
    destruct Hidle as (w' & Hrun & Hthr & _); [by vm_compute |].
    exists w'. split; [exact Hrun |]. rewrite Hthr. reflexivity.
Defined.

(** [reportProgress_spec] on a manager whose only job is done: the
    progress reported is 100. *)
Lemma reportProgress_spec_witness :
  exists w',
    reportProgress (Scenario.after Scenario.one_job_done (Scenario.fresh 1))
    = Some (tt, w')
    /\ signals (log w')
       = signals (log (Scenario.after Scenario.one_job_done
                         (Scenario.fresh 1)))
           ++ [signalProgress 100].
Proof.
  destruct (reportProgress_spec
              (Scenario.after Scenario.one_job_done (Scenario.fresh 1)))
    as (w' & Hrun & _ & _ & _ & Hjobs).
  destruct Hjobs as (Hlog & _); [reflexivity |].
  exists w'. split; [exact Hrun |]. rewrite Hlog. reflexivity.
Defined.

(** [clear_then_start] on a manager that does not run and on a manager
    with two running jobs. *)
Lemma clear_then_start_witness :
  (exists w',
      (clear ;; start) (Scenario.after Scenario.three_jobs (Scenario.fresh 2))
      = Some (true, w')
      /\ m_eStatus (jm w') = sFinished)
  /\ (exists w',
         (clear ;; start)
           (Scenario.after Scenario.two_running (Scenario.fresh 2))
         = Some (false, w')
         /\ jobCount (jm w') = 0).
Proof.
  split.
  - destruct (clear_then_start
                (Scenario.after Scenario.three_jobs (Scenario.fresh 2)))
      as (Hidle & _).
    destruct Hidle as (w' & Hrun & Hst & _); [by vm_compute |].
    exists w'. split; [exact Hrun | exact Hst].
  - destruct (clear_then_start
                (Scenario.after Scenario.two_running (Scenario.fresh 2)))
      as (_ & Hrunning).
    destruct Hrunning as (w' & Hrun & _ & Hjobs & _); [reflexivity |].
    exists w'. split; [exact Hrun | exact Hjobs].
Defined.

(** [tick_signals_in_order] on a manager with one thread whose job
    spawned two jobs. *)
Lemma tick_signals_in_order_witness :
  exists w' (mid : list Signal),
    handleJobFinished 0%nat
      (Scenario.after Scenario.spawning_run (Scenario.fresh 1))
    = Some (tt, w')
    /\ signals (log w')
       = mid ++ (if isFinished (jm w') then [signalFinished] else [])
    /\ Forall dispatch_signal mid.
Proof.
  destruct (tick_signals_in_order 0%nat
              (Scenario.after Scenario.spawning_run (Scenario.fresh 1))
              (Thread.mk 0 (Some 0%nat) false) 0%nat)
    as (w' & mid & Hrun & Hsig & Hmid).
  - exact spawning_run_consistent.
  - reflexivity.
  - reflexivity.
  - exists w', mid. split; [exact Hrun |]. split; [|exact Hmid].
    rewrite Hsig. reflexivity.
Defined.

End JobManagerInstances.

Section SessionManagerInstances.

Import AbstractSessionManager.

Lemma session_0_job_0_ran_consistent :
  consistent (m_jm Scenario.session_0_job_0_ran).
Proof.
  split; vm_compute; repeat constructor; intros; discriminate.
Defined.

(** [start_refused_or_empty]: in the middle of session 0, and on a
    session manager without sessions. *)
Lemma start_refused_or_empty_witness :
  start Scenario.three_sessions Scenario.in_session_0
  = Some (false, Scenario.in_session_0)
  /\ exists s',
       start Scenario.no_sessions (init 4 0 0 1) = Some (true, s')
       /\ out s' = [signalFinished].
Proof.
  split.
  - destruct (start_refused_or_empty Scenario.three_sessions
                Scenario.in_session_0) as (Hrunning & _).
    apply Hrunning. vm_compute; reflexivity.
  - destruct (start_refused_or_empty Scenario.no_sessions (init 4 0 0 1))
      as (_ & Hempty).
    destruct Hempty as (s' & Hrun & _ & Hout & _);
      [vm_compute; reflexivity | reflexivity |].
    exists s'. split; [exact Hrun |]. rewrite Hout. vm_compute; reflexivity.
Defined.

(** [start_after_stop_is_refused] on the session manager of the unit
    tests after [stop()] in session 0. *)
Lemma start_after_stop_is_refused_witness :
  exists s',
    start Scenario.three_sessions Scenario.session_stopped = Some (false, s')
    /\ m_eStatus s' = sStopped
    /\ m_iSessionIndex s' = -1.
Proof.
  destruct (start_after_stop_is_refused Scenario.three_sessions
              Scenario.session_stopped)
    as (s' & Hrun & Hst & _ & Hidx & _).
  - vm_compute; reflexivity.
  - by vm_compute.
  - vm_compute; reflexivity.
  - exists s'. split; [exact Hrun |]. split; [exact Hst | exact Hidx].
Defined.

(** [handleFinished_outside_running] in the pause after session 0. *)
Lemma handleFinished_outside_running_witness :
  exists s',
    handleFinished Scenario.three_sessions Scenario.session_0_done
    = Some (tt, s')
    /\ m_eStatus s' = sError.
Proof.
  destruct (handleFinished_outside_running Scenario.three_sessions
              Scenario.session_0_done)
    as (s' & Hrun & Hst & _).
  - by vm_compute.
  - exists s'. split; [exact Hrun | exact Hst].
Defined.

(** [stop_between_sessions_keeps_timer] in the pause after session 0: of
    a session manager whose sessions always have a job, and of the session
    manager of the unit tests, which has no job for the index -1. *)
Lemma stop_between_sessions_keeps_timer_witness :
  (exists s1 s2,
      stop Scenario.eager_sessions Scenario.between_sessions = Some (tt, s1)
      /\ m_eStatus s1 = sStopped
      /\ fireTimer Scenario.eager_sessions s1 = Some (tt, s2)
      /\ m_eStatus s2 = sRunning
      /\ m_iSessionIndex s2 = -1)
  /\ (exists s1 s2,
         stop Scenario.three_sessions Scenario.session_0_done = Some (tt, s1)
         /\ m_eStatus s1 = sStopped
         /\ fireTimer Scenario.three_sessions s1 = Some (tt, s2)
         /\ m_eStatus s2 = sPaused
         /\ m_iSessionIndex s2 = 0).
Proof.
  split.
  - destruct (stop_between_sessions_keeps_timer Scenario.eager_sessions
                Scenario.between_sessions 0 []
                (Scenario.after
                   (JobManager.clear ;; JobManager.setAllowedErrors 0)
                   (m_jm Scenario.between_sessions))
                (Scenario.after
                   (JobManager.clear ;; JobManager.setAllowedErrors 0 ;;
                    Scenario.jobs 1)
                   (m_jm Scenario.between_sessions))
                (Scenario.after
                   (JobManager.clear ;; JobManager.setAllowedErrors 0 ;;
                    Scenario.jobs 1 ;; JobManager.start)
                   (m_jm Scenario.between_sessions)))
      as (s1 & s2 & Hstop & Hst1 & _ & _ & _ & Hfire & _ & _ & Hjobs & _).
    + vm_compute; reflexivity.
    + vm_compute; reflexivity.
    + vm_compute; reflexivity.
    + vm_compute; reflexivity.
    + vm_compute; reflexivity.
    + vm_compute; reflexivity.
    + vm_compute; reflexivity.
    + destruct Hjobs as (Hst2 & Hidx & _); [by vm_compute |].
      exists s1, s2. split; [exact Hstop |]. split; [exact Hst1 |].
      split; [exact Hfire |]. split; [exact Hst2 | exact Hidx].
  - destruct (stop_between_sessions_keeps_timer Scenario.three_sessions
                Scenario.session_0_done 0 []
                (Scenario.after
                   (JobManager.clear ;; JobManager.setAllowedErrors 0)
                   (m_jm Scenario.session_0_done))
                (Scenario.after
                   (JobManager.clear ;; JobManager.setAllowedErrors 0)
                   (m_jm Scenario.session_0_done))
                (Scenario.after
                   (JobManager.clear ;; JobManager.setAllowedErrors 0 ;;
                    JobManager.start)
                   (m_jm Scenario.session_0_done)))
      as (s1 & s2 & Hstop & Hst1 & _ & _ & _ & Hfire & _ & _ & _ & Hempty).
    + vm_compute; reflexivity.
    + vm_compute; reflexivity.
    + vm_compute; reflexivity.
    + vm_compute; reflexivity.
    + vm_compute; reflexivity.
    + vm_compute; reflexivity.
    + vm_compute; reflexivity.
    + destruct Hempty as (Hidx & Hst2 & _); [by vm_compute |].
      exists s1, s2. split; [exact Hstop |]. split; [exact Hst1 |].
      split; [exact Hfire |]. split; [exact Hst2 | exact Hidx].
Defined.

(** [handleProgress_bounds] in session 0 of three, at half of the
    session: the overall progress is 16; and on a session manager without
    sessions. *)
Lemma handleProgress_bounds_witness :
  handleProgress Scenario.three_sessions 50 Scenario.in_session_0
  = Some (tt, set_out (out Scenario.in_session_0 ++ [signalProgress 16])
                      Scenario.in_session_0)
  /\ handleProgress Scenario.no_sessions 50 (init 4 0 0 1) = None.
Proof.
  split.
  - destruct (handleProgress_bounds Scenario.three_sessions
                Scenario.in_session_0 50) as (Hbounds & _).
    destruct Hbounds as (v & Hrun & Hv & _).
    + by vm_compute.
    + by vm_compute.
    + lia.
    + rewrite Hrun, Hv. vm_compute; reflexivity.
  - destruct (handleProgress_bounds Scenario.no_sessions (init 4 0 0 1) 50)
      as (_ & Hzero).
    apply Hzero. reflexivity.
Defined.

(** [workerFinished_counts_job] in session 0 after the thread has run
    job 0: one job is counted. *)
Lemma workerFinished_counts_job_witness :
  exists s',
    workerFinished Scenario.three_sessions 0%nat Scenario.session_0_job_0_ran
    = Some (tt, s')
    /\ finishedJobs s' = 1.
Proof.
  destruct (workerFinished_counts_job Scenario.three_sessions
              Scenario.session_0_job_0_ran 0%nat
              (Thread.mk 0 (Some 0%nat) false) 0%nat)
    as (s' & Hrun & _ & Hfin).
  - by vm_compute.
  - exact session_0_job_0_ran_consistent.
  - vm_compute; reflexivity.
  - vm_compute; reflexivity.
  - exists s'. split; [exact Hrun |]. rewrite Hfin. vm_compute; reflexivity.
Defined.

End SessionManagerInstances.
